(** * PrismCast channel selection: coordinator and tile-click strategy

    A shallow embedding of [src/browser/channelSelection.ts] and
    [src/browser/tuning/tileClick.ts].

    - JavaScript strings are sequences of UTF-16 code units ([list N]).
    - JavaScript numbers that hold viewport coordinates are exact rationals
      ([Q]); counters and lengths are [nat].
    - Asynchronous functions run sequentially against one page, so a call is a
      state transformer over the browser world, the diagnostic log and a trace
      of the page operations it issued; a rejected promise is a thrown
      completion. *)

From Stdlib Require Import List Bool Arith NArith ZArith QArith Lia.
From Stdlib Require Import String Ascii DecimalString.
Import ListNotations.

Set Implicit Arguments.
Local Open Scope N_scope.

(* ================================================================== *)
(** * Part I. Definitions                                              *)
(* ================================================================== *)

(** ** JavaScript strings *)

Definition jsstring := list N.

(** An ASCII literal of the source, as code units. *)
Definition js (s : string) : jsstring :=
  map N_of_ascii (list_ascii_of_string s).

Fixpoint streq (a b : jsstring) : bool :=
  match a, b with
  | [], [] => true
  | x :: a', y :: b' => (x =? y) && streq a' b'
  | _, _ => false
  end.

(** [s.startsWith(p)] *)
Fixpoint startsWith (s p : jsstring) : bool :=
  match p, s with
  | [], _ => true
  | y :: p', x :: s' => (x =? y) && startsWith s' p'
  | _ :: _, [] => false
  end.

(** [s.includes(sub)] *)
Fixpoint includes (s sub : jsstring) : bool :=
  startsWith s sub ||
  match s with
  | [] => false
  | _ :: s' => includes s' sub
  end.

(** [s.endsWith(p)] *)
Definition endsWith (s p : jsstring) : bool :=
  startsWith (rev s) (rev p).

(** [String(n)] for a non-negative integer. *)
Definition String_of_nat (n : nat) : jsstring :=
  js (NilEmpty.string_of_uint (Nat.to_uint n)).

(** [arr.join(sep)] *)
Fixpoint join (sep : jsstring) (parts : list jsstring) : jsstring :=
  match parts with
  | [] => []
  | [p] => p
  | p :: rest => p ++ sep ++ join sep rest
  end.

(** The code units matched by [\s] and removed by [trim()]: the WhiteSpace
    and LineTerminator productions of ECMAScript. *)
Definition isWhiteSpace (c : N) : bool :=
  ((9 <=? c) && (c <=? 13))       (* TAB LF VT FF CR *)
  || (c =? 32)                    (* SPACE *)
  || (c =? 160)                   (* NO-BREAK SPACE *)
  || (c =? 5760)                  (* U+1680 *)
  || ((8192 <=? c) && (c <=? 8202)) (* U+2000 .. U+200A *)
  || (c =? 8232) || (c =? 8233)   (* U+2028 U+2029 *)
  || (c =? 8239)                  (* U+202F *)
  || (c =? 8287)                  (* U+205F *)
  || (c =? 12288)                 (* U+3000 *)
  || (c =? 65279).                (* U+FEFF *)

(** The code units that [.] does not match in a regular expression. *)
Definition isLineTerminator (c : N) : bool :=
  (c =? 10) || (c =? 13) || (c =? 8232) || (c =? 8233).

Fixpoint trimStart (s : jsstring) : jsstring :=
  match s with
  | [] => []
  | c :: r => if isWhiteSpace c then trimStart r else s
  end.

Definition isEmpty (s : jsstring) : bool :=
  match s with [] => true | _ => false end.

Fixpoint trimEnd (s : jsstring) : jsstring :=
  match s with
  | [] => []
  | c :: r =>
      let r' := trimEnd r in
      if isWhiteSpace c && isEmpty r' then [] else c :: r'
  end.

(** [s.trim()] *)
Definition trim (s : jsstring) : jsstring := trimEnd (trimStart s).

(** [s.replace(/\s+/g, " ")]: every maximal run of white space becomes one
    ASCII space.  [inRun] tells that the previous code unit was white space. *)
Fixpoint replaceRuns (inRun : bool) (s : jsstring) : jsstring :=
  match s with
  | [] => []
  | c :: r =>
      if isWhiteSpace c
      then (if inRun then replaceRuns true r else 32 :: replaceRuns true r)
      else c :: replaceRuns false r
  end.

Definition replaceWhiteSpaceRuns (s : jsstring) : jsstring :=
  replaceRuns false s.

(** What [toLowerCase] does to a string of ASCII code units. *)
Definition asciiLower (c : N) : N :=
  if (65 <=? c) && (c <=? 90) then c + 32 else c.

Definition isAscii (c : N) : Prop := c < 128.

(** ** channelSelection.ts: normalizeChannelName

    [String.prototype.toLowerCase] is the host's Unicode case mapping; the
    functions that call it take it as a parameter. *)

Section NormalizeChannelName.

Variable toLowerCase : jsstring -> jsstring.

Definition normalizeChannelName (name : jsstring) : jsstring :=
  toLowerCase (replaceWhiteSpaceRuns (trim name)).

End NormalizeChannelName.

(** ** channelSelection.ts: logAvailableChannels *)

Inductive LogArg :=
| ArgString (s : jsstring)
| ArgNumber (n : nat).

(** One call of [LOG.warn], [LOG.info] or [LOG.debug] (the latter takes a
    category first): the format string and its positional arguments. *)
Inductive LogEntry :=
| LogWarn (format : jsstring) (args : list LogArg)
| LogInfo (format : jsstring) (args : list LogArg)
| LogDebug (category format : jsstring) (args : list LogArg).

(** A preset channel of [CHANNELS]; only the field read here. *)
Record Channel := { channelSelector_of : option jsstring }.

Record LogAvailableChannelsOptions := {
  additionalKnownNames : option (list jsstring);
  availableChannels : list jsstring;
  channelName : jsstring;
  guideUrl : jsstring;
  presetSuffix : option jsstring;
  providerName : jsstring
}.

(** [lower.charCodeAt(i)]; out of range is NaN, which no comparison
    accepts. *)
Definition charCodeAt (s : jsstring) (i : nat) : option N := nth_error s i.

Definition isAsciiDigitCode (c : option N) : bool :=
  match c with
  | Some n => (48 <=? n) && (n <=? 57)
  | None => false
  end.

(** [.*\)$] matched against the whole of [r]: the last code unit is a closing
    parenthesis and no line terminator comes before it. *)
Fixpoint matchesToClosingParen (r : jsstring) : bool :=
  match r with
  | [] => false
  | [c] => c =? 41
  | c :: r' => negb (isLineTerminator c) && matchesToClosingParen r'
  end.

(** [/ \(.*\)$/] matched at the start of [s]. *)
Definition parentheticalAt (s : jsstring) : bool :=
  match s with
  | a :: b :: r => (a =? 32) && (b =? 40) && matchesToClosingParen r
  | _ => false
  end.

(** [lower.replace] of [/ \(.*\)$/] by the empty string: the leftmost match
    is removed. *)
Fixpoint stripParenthetical (s : jsstring) : jsstring :=
  if parentheticalAt s then []
  else match s with
       | [] => []
       | c :: r => c :: stripParenthetical r
       end.

(** The body of [knownSelectors.some(...)]. *)
Definition coveredBy (lower stripped sel : jsstring) : bool :=
  streq stripped sel
  || (startsWith lower (sel ++ js " ")
      && (List.length sel + 1 <? List.length lower)%nat
      && isAsciiDigitCode (charCodeAt lower (List.length sel + 1))).

Section LogAvailableChannels.

Variable toLowerCase : jsstring -> jsstring.

(** [Object.entries(CHANNELS)], in enumeration order. *)
Variable CHANNELS : list (jsstring * Channel).

Definition presetSelectors (suffix : jsstring) : list jsstring :=
  filter (fun s => (0 <? List.length s)%nat)
    (map (fun entry =>
            toLowerCase
              (match channelSelector_of (snd entry) with
               | Some s => s
               | None => []
               end))
       (filter (fun entry => endsWith (fst entry) suffix) CHANNELS)).

Definition knownSelectors (suffix : jsstring)
    (additional : option (list jsstring)) : list jsstring :=
  match additional with
  | Some names => presetSelectors suffix ++ map toLowerCase names
  | None => presetSelectors suffix
  end.

Definition isUncovered (known : list jsstring) (name : jsstring) : bool :=
  let lower := toLowerCase name in
  let stripped := stripParenthetical lower in
  negb (existsb (coveredBy lower stripped) known).

(** The value of [filteredChannels] after the [if(presetSuffix)] statement;
    an empty suffix is falsy. *)
Definition filteredChannels (options : LogAvailableChannelsOptions)
    : list jsstring :=
  match presetSuffix options with
  | Some (c :: suffix) =>
      filter
        (isUncovered (knownSelectors (c :: suffix) (additionalKnownNames options)))
        (availableChannels options)
  | _ => availableChannels options
  end.

Definition countLabel (options : LogAvailableChannelsOptions) : jsstring :=
  match presetSuffix options with
  | Some (_ :: _) =>
      js "uncovered (" ++ String_of_nat (List.length (filteredChannels options))
        ++ js " of " ++ String_of_nat (List.length (availableChannels options))
        ++ js ")"
  | _ => String_of_nat (List.length (filteredChannels options))
  end.

Definition availableChannelsFormat : jsstring :=
  js "Channel " ++ [34] ++ js "%s" ++ [34]
  ++ js " not found in %s guide. Create a user-defined channel with one of the names below as the Channel Selector and %s as the URL. "
  ++ js "Available channels (%s): %s.".

(** The log entries the call emits: none or one warning. *)
Definition logAvailableChannels (options : LogAvailableChannelsOptions)
    : list LogEntry :=
  match availableChannels options with
  | [] => []
  | _ :: _ =>
      match filteredChannels options with
      | [] => []
      | _ :: _ =>
          [LogWarn availableChannelsFormat
             [ArgString (channelName options);
              ArgString (providerName options);
              ArgString (guideUrl options);
              ArgString (countLabel options);
              ArgString (join (js ", ") (filteredChannels options))]]
      end
  end.

End LogAvailableChannels.

(** ** The page, the document and the runtime *)

Record DOMRect := {
  rect_x : Q;
  rect_y : Q;
  rect_width : Q;
  rect_height : Q
}.

(** [ClickTarget]: the fields [x] and [y]. *)
Record ClickTarget := { target_x : Q; target_y : Q }.

(** An element met on the way up from an image.  [node] is its identity;
    the other fields are what the walk reads from it. *)
Record HTMLElement := {
  node : nat;
  tagName : jsstring;
  roleAttribute : option jsstring;   (* getAttribute("role") *)
  hasOnclick : bool                  (* hasAttribute("onclick") *)
}.

(** An [img] element.  [parentChain] is [parentElement], then its
    [parentElement], and so on to the root element, nearest first: the
    document is a finite tree. *)
Record HTMLImageElement := {
  img_node : nat;
  src : jsstring;
  complete : bool;
  naturalWidth : N;
  parentChain : list HTMLElement
}.

(** What the code asks of the browser.  The first group is the live document
    as a function evaluated in the page sees it; the second is Puppeteer's
    page API together with [delay] of utils.  A wait answers [true] when it
    resolved and [false] when it rejected on its timeout. *)
Record Browser (World : Type) := {
  querySelectorAll_img : World -> list HTMLImageElement;
  querySelector : jsstring -> World -> option HTMLElement;
  document_body : World -> nat;
  getBoundingClientRect : nat -> World -> DOMRect;
  getComputedStyle_cursor : nat -> World -> jsstring;
  scrollIntoView : nat -> World -> World;
  waitForFunction : (World -> bool) -> N -> World -> bool * World;
  waitForSelector : jsstring -> bool -> N -> World -> bool * World;
  mouse_click : Q -> Q -> World -> World;
  delay : N -> World -> World
}.

(** The functions handed to the page for evaluation. *)
Inductive PageFunction :=
| FindTile (slug : jsstring)
| ReadPlayTarget (selector : jsstring).

(** The operations a call issued against the page, oldest first. *)
Inductive PageOp :=
| OpWaitForFunction (slug : jsstring) (timeout : N)
| OpEvaluate (fn : PageFunction)
| OpDelay (ms : N)
| OpMouseClick (x y : Q)
| OpWaitForSelector (selector : jsstring) (hidden : bool) (timeout : N).

Record Runtime (World : Type) := {
  world : World;
  logs : list LogEntry;
  trace : list PageOp
}.

Inductive Exception :=
| TypeError (message : jsstring)
| TimeoutError.

(** How an awaited call completes: with a value, or by throwing. *)
Inductive Completion (A : Type) :=
| Normal (value : A)
| Throw (e : Exception).

Arguments Normal {A} value.
Arguments Throw {A} e.

Definition Async (World A : Type) : Type :=
  Runtime World -> Completion A * Runtime World.

Section AsyncMonad.

Context {World : Type}.

Definition ret {A} (a : A) : Async World A := fun rt => (Normal a, rt).

Definition bind {A B} (m : Async World A) (k : A -> Async World B)
    : Async World B :=
  fun rt =>
    match m rt with
    | (Normal a, rt') => k a rt'
    | (Throw e, rt') => (Throw e, rt')
    end.

Definition throw {A} (e : Exception) : Async World A :=
  fun rt => (Throw e, rt).

(** [try { body } catch { handler }] *)
Definition tryCatch {A} (body handler : Async World A) : Async World A :=
  fun rt =>
    match body rt with
    | (Normal a, rt') => (Normal a, rt')
    | (Throw _, rt') => handler rt'
    end.

Definition record (op : PageOp) (rt : Runtime World) : Runtime World :=
  {| world := world rt; logs := logs rt; trace := trace rt ++ [op] |}.

Definition setWorld (w : World) (rt : Runtime World) : Runtime World :=
  {| world := w; logs := logs rt; trace := trace rt |}.

Definition LOG (entry : LogEntry) : Async World unit :=
  fun rt =>
    (Normal tt,
     {| world := world rt; logs := logs rt ++ [entry]; trace := trace rt |}).

End AsyncMonad.

Declare Scope async_scope.
Delimit Scope async_scope with async.
Notation "x <- m ;; k" := (bind m (fun x => k))
  (at level 100, m at next level, right associativity) : async_scope.
Notation "m ;; k" := (bind m (fun _ => k))
  (at level 100, right associativity) : async_scope.
Local Open Scope async_scope.

Record Config := {
  channelSelectorDelay : N;   (* CONFIG.playback.channelSelectorDelay *)
  videoTimeout : N            (* CONFIG.streaming.videoTimeout *)
}.

Record ChannelSelectionConfig := {
  strategy : jsstring;
  playSelector : option jsstring
}.

Record ResolvedSiteProfile := {
  channelSelection : ChannelSelectionConfig;
  channelSelector : option jsstring
}.

(** [ChannelSelectionProfile]: the profile narrowed to a non-null
    [channelSelector]. *)
Record ChannelSelectionProfile := {
  selection : ChannelSelectionConfig;
  selector : jsstring
}.

Record ChannelSelectorResult := {
  success : bool;
  reason : option jsstring
}.

Definition succeeded : ChannelSelectorResult :=
  {| success := true; reason := None |}.

Definition failed (why : jsstring) : ChannelSelectorResult :=
  {| success := false; reason := Some why |}.

(** Modelled from the spec: [isChannelSelectionProfile] of types/index.js,
    which is not among the sources.  The guard holds when the profile has a
    channel selector value, and narrows the profile to it. *)
Definition isChannelSelectionProfile (profile : ResolvedSiteProfile)
    : option ChannelSelectionProfile :=
  match channelSelector profile with
  | Some s => Some {| selection := channelSelection profile; selector := s |}
  | None => None
  end.

Section PagePrimitives.

Context {World : Type}.
Variable browser : Browser World.

(** Modelled from the spec: [evaluateWithAbort] of utils/index.js, which is
    not among the sources.  The function is run against the live document
    and its result comes back. *)
Definition evaluateWithAbort {A} (fn : PageFunction)
    (body : World -> A * World) : Async World A :=
  fun rt =>
    let '(a, w) := body (world rt) in
    (Normal a, record (OpEvaluate fn) (setWorld w rt)).

Definition page_waitForFunction (slug : jsstring) (predicate : World -> bool)
    (timeout : N) : Async World unit :=
  fun rt =>
    let '(resolved, w) := waitForFunction browser predicate timeout (world rt) in
    (if resolved then Normal tt else Throw TimeoutError,
     record (OpWaitForFunction slug timeout) (setWorld w rt)).

Definition page_waitForSelector (sel : jsstring) (hidden : bool) (timeout : N)
    : Async World unit :=
  fun rt =>
    let '(resolved, w) := waitForSelector browser sel hidden timeout (world rt) in
    (if resolved then Normal tt else Throw TimeoutError,
     record (OpWaitForSelector sel hidden timeout) (setWorld w rt)).

(** [page.mouse.click(x, y)].  The click is taken to complete: a click that
    Puppeteer rejects is outside this model, and nothing below speaks of
    it. *)
Definition page_mouse_click (x y : Q) : Async World unit :=
  fun rt =>
    (Normal tt, record (OpMouseClick x y) (setWorld (mouse_click browser x y (world rt)) rt)).

Definition utils_delay (ms : N) : Async World unit :=
  fun rt =>
    (Normal tt, record (OpDelay ms) (setWorld (delay browser ms (world rt)) rt)).

(** ** channelSelection.ts: scrollAndClick *)
Definition scrollAndClick (target : ClickTarget) : Async World bool :=
  utils_delay 200 ;;
  page_mouse_click (target_x target) (target_y target) ;;
  ret true.

End PagePrimitives.

(** ** tuning/tileClick.ts *)

Definition MAX_PLAY_CLICK_ATTEMPTS : nat := 3.
Definition PLAY_CLICK_VERIFY_TIMEOUT : N := 3000.

Definition Qgt_bool (a b : Q) : bool := negb (Qle_bool a b).

(** [(rect.width > 0) && (rect.height > 0)] *)
Definition hasArea (rect : DOMRect) : bool :=
  Qgt_bool (rect_width rect) 0 && Qgt_bool (rect_height rect) 0.

(** [{ x: rect.x + (rect.width / 2), y: rect.y + (rect.height / 2) }] *)
Definition centerOf (rect : DOMRect) : ClickTarget :=
  {| target_x := (rect_x rect + rect_width rect / 2)%Q;
     target_y := (rect_y rect + rect_height rect / 2)%Q |}.

(** An anchor, a button, an explicit button role or an [onclick] attribute. *)
Definition isSemanticClickable (el : HTMLElement) : bool :=
  streq (tagName el) (js "A")
  || streq (tagName el) (js "BUTTON")
  || match roleAttribute el with
     | Some r => streq r (js "button")
     | None => false
     end
  || hasOnclick el.

(** How the [while] loop over the ancestors ends: by returning a target from
    the page function, or by running out of ancestors with the pointer
    fallback it tracked. *)
Inductive WalkResult :=
| SemanticTarget (target : ClickTarget)
| WalkedOut (pointerFallback : option HTMLElement).

Section TileClick.

Context {World : Type}.
Variable browser : Browser World.
Variable CONFIG : Config.

(** [(rect.width > 20) && (rect.height > 20) && cursor === "pointer"] *)
Definition isPointerCandidate (el : HTMLElement) (w : World) : bool :=
  let rect := getBoundingClientRect browser (node el) w in
  Qgt_bool (rect_width rect) 20 && Qgt_bool (rect_height rect) 20
  && streq (getComputedStyle_cursor browser (node el) w) (js "pointer").

(** [while(ancestor && (ancestor !== document.body)) { ... }], lines 60-89.
    [chain] is [ancestor] followed by its own ancestors. *)
Fixpoint walkAncestors (chain : list HTMLElement)
    (pointerFallback : option HTMLElement) (w : World) : WalkResult * World :=
  match chain with
  | [] => (WalkedOut pointerFallback, w)
  | ancestor :: parents =>
      if (node ancestor =? document_body browser w)%nat
      then (WalkedOut pointerFallback, w)
      else
        let semantic :=
          if isSemanticClickable ancestor
          then
            let w1 := scrollIntoView browser (node ancestor) w in
            let rect := getBoundingClientRect browser (node ancestor) w1 in
            if hasArea rect then (Some (centerOf rect), w1) else (None, w1)
          else (None, w) in
        match semantic with
        | (Some target, w1) => (SemanticTarget target, w1)
        | (None, w1) =>
            let pointerFallback' :=
              match pointerFallback with
              | Some _ => pointerFallback
              | None =>
                  if isPointerCandidate ancestor w1 then Some ancestor else None
              end in
            walkAncestors parents pointerFallback' w1
        end
  end.

(** The body of the [for] loop over the images, lines 47-104: the target
    this image yields, if any. *)
Definition tileOfImage (slug : jsstring) (img : HTMLImageElement) (w : World)
    : option ClickTarget * World :=
  if includes (src img) slug
  then
    let imgRect := getBoundingClientRect browser (img_node img) w in
    if hasArea imgRect
    then
      match walkAncestors (parentChain img) None w with
      | (SemanticTarget target, w1) => (Some target, w1)
      | (WalkedOut (Some fallback), w1) =>
          let w2 := scrollIntoView browser (node fallback) w1 in
          let rect := getBoundingClientRect browser (node fallback) w2 in
          if hasArea rect then (Some (centerOf rect), w2) else (None, w2)
      | (WalkedOut None, w1) => (None, w1)
      end
    else (None, w)
  else (None, w).

(** [for(const img of Array.from(images)) { ... } return null;] *)
Fixpoint findTileIn (slug : jsstring) (images : list HTMLImageElement)
    (w : World) : option ClickTarget * World :=
  match images with
  | [] => (None, w)
  | img :: rest =>
      match tileOfImage slug img w with
      | (Some target, w1) => (Some target, w1)
      | (None, w1) => findTileIn slug rest w1
      end
  end.

(** The page function of step 1, lines 41-108. *)
Definition findTile (slug : jsstring) (w : World) : option ClickTarget * World :=
  findTileIn slug (querySelectorAll_img browser w) w.

(** The page function that reads the play button, lines 139-158. *)
Definition readPlayTarget (sel : jsstring) (w : World)
    : option ClickTarget * World :=
  match querySelector browser sel w with
  | None => (None, w)
  | Some button =>
      let w1 := scrollIntoView browser (node button) w in
      let rect := getBoundingClientRect browser (node button) w1 in
      if hasArea rect then (Some (centerOf rect), w1) else (None, w1)
  end.

Definition retryFormat : jsstring :=
  js "Play button click attempt %s of %s did not dismiss the modal. Retrying with fresh coordinates.".

Definition disappearedFormat : jsstring :=
  js "Play button disappeared before attempt %s. Previous click likely succeeded.".

Definition exhaustedReason : jsstring :=
  js "Play button click did not dismiss the modal after "
  ++ String_of_nat MAX_PLAY_CLICK_ATTEMPTS ++ js " attempts.".

(** [for(let attempt = 0; attempt < MAX_PLAY_CLICK_ATTEMPTS; attempt++)],
    lines 135-197, with the [return] that follows the loop.  [remaining]
    counts the iterations left, so [attempt] is
    [MAX_PLAY_CLICK_ATTEMPTS - remaining]. *)
Fixpoint clickPlayButton (sel : jsstring) (remaining : nat)
    : Async World ChannelSelectorResult :=
  match remaining with
  | O => ret (failed exhaustedReason)
  | S remaining' =>
      let attempt := (MAX_PLAY_CLICK_ATTEMPTS - remaining)%nat in
      playTarget <- evaluateWithAbort (ReadPlayTarget sel) (readPlayTarget sel) ;;
      match playTarget with
      | None =>
          if (0 <? attempt)%nat
          then
            LOG (LogDebug (js "tuning:tileClick") disappearedFormat
                   [ArgNumber (attempt + 1)]) ;;
            ret succeeded
          else ret (failed (js "Play button found but has no dimensions."))
      | Some target =>
          scrollAndClick browser target ;;
          dismissed <-
            tryCatch
              (page_waitForSelector browser sel true PLAY_CLICK_VERIFY_TIMEOUT ;;
               ret true)
              (ret false) ;;
          if (dismissed : bool)
          then ret succeeded
          else
            (if (attempt <? MAX_PLAY_CLICK_ATTEMPTS - 1)%nat
             then LOG (LogInfo retryFormat
                         [ArgNumber (attempt + 1);
                          ArgNumber MAX_PLAY_CLICK_ATTEMPTS])
             else ret tt) ;;
            clickPlayButton sel remaining'
      end
  end.

Definition tileClickStrategyFn (profile : ChannelSelectionProfile)
    : Async World ChannelSelectorResult :=
  let channelSlug := selector profile in
  tileTarget <- evaluateWithAbort (FindTile channelSlug) (findTile channelSlug) ;;
  match tileTarget with
  | None => ret (failed (js "Channel tile not found in page images."))
  | Some target =>
      scrollAndClick browser target ;;
      match playSelector (selection profile) with
      | Some (c :: s) =>
          let playButtonSelector := c :: s in
          appeared <-
            tryCatch
              (page_waitForSelector browser playButtonSelector false
                 (videoTimeout CONFIG) ;;
               ret true)
              (ret false) ;;
          if (appeared : bool)
          then clickPlayButton playButtonSelector MAX_PLAY_CLICK_ATTEMPTS
          else ret (failed (js "Play button did not appear after clicking channel tile."))
      | _ => ret succeeded
      end
  end.

End TileClick.

(** ** The strategy registry *)

Definition ChannelStrategyFn (World : Type) : Type :=
  ChannelSelectionProfile -> Async World ChannelSelectorResult.

Record ChannelStrategyEntry (World : Type) := {
  execute : ChannelStrategyFn World;
  usesImageSlug : bool
}.

(** What a property of the registry object can hold at run time: a function
    of the strategy signature, or an object with the two fields of
    [ChannelStrategyEntry]. *)
Inductive JSValue (World : Type) :=
| FunctionValue (fn : ChannelStrategyFn World)
| EntryObject (entry : ChannelStrategyEntry World).

Arguments FunctionValue {World} fn.
Arguments EntryObject {World} entry.

(** The strategies imported from tuning files that are not among the
    sources, and the members an object literal inherits from
    [Object.prototype]: both are given by the environment. *)
Record Environment (World : Type) := {
  CONFIG : Config;
  foxGridStrategy : JSValue World;
  guideGridStrategy : JSValue World;
  hboGridStrategy : JSValue World;
  slingGridStrategy : JSValue World;
  thumbnailRowStrategy : JSValue World;
  youtubeGridStrategy : JSValue World;
  Object_prototype : jsstring -> option (JSValue World)
}.

Fixpoint ownProperty {V : Type} (object : list (jsstring * V)) (key : jsstring)
    : option V :=
  match object with
  | [] => None
  | (k, v) :: rest => if streq k key then Some v else ownProperty rest key
  end.

Section Coordinator.

Context {World : Type}.
Variable browser : Browser World.
Variable env : Environment World.

(** tileClick.ts, line 203. *)
Definition tileClickStrategy : ChannelStrategyEntry World :=
  {| execute := tileClickStrategyFn browser (CONFIG env);
     usesImageSlug := true |}.

(** channelSelection.ts, lines 30-39. *)
Definition strategies : list (jsstring * JSValue World) :=
  [ (js "foxGrid", foxGridStrategy env);
    (js "guideGrid", guideGridStrategy env);
    (js "hboGrid", hboGridStrategy env);
    (js "slingGrid", slingGridStrategy env);
    (js "thumbnailRow", thumbnailRowStrategy env);
    (js "tileClick", EntryObject tileClickStrategy);
    (js "youtubeGrid", youtubeGridStrategy env) ].

(** [strategies[key]]: an own property, else an inherited one, else
    [undefined]. *)
Definition strategies_get (key : jsstring) : option (JSValue World) :=
  match ownProperty strategies key with
  | Some v => Some v
  | None => Object_prototype env key
  end.

(** [strategyFn(page, profile)]: only a function can be called. *)
Definition call (strategyFn : JSValue World) (profile : ChannelSelectionProfile)
    : Async World ChannelSelectorResult :=
  match strategyFn with
  | FunctionValue fn => fn profile
  | EntryObject _ => throw (TypeError (js "strategyFn is not a function"))
  end.

Definition skipImagePolling : list jsstring :=
  [ js "foxGrid"; js "guideGrid"; js "hboGrid"; js "slingGrid"; js "youtubeGrid" ].

(** [skipImagePolling.includes(channelSelection.strategy)] *)
Definition skipsImagePolling (name : jsstring) : bool :=
  existsb (fun s => streq s name) skipImagePolling.

(** The predicate polled in the page, line 199. *)
Definition slugImageLoaded (slug : jsstring) (w : World) : bool :=
  existsb
    (fun img =>
       negb (isEmpty (src img)) && includes (src img) slug
       && complete img && (0 <? naturalWidth img))
    (querySelectorAll_img browser w).

(** Lines 190-208: the poll for the slug image, whose timeout is swallowed. *)
Definition pollSlugImage (profile : ChannelSelectionProfile) : Async World unit :=
  if skipsImagePolling (strategy (selection profile))
  then ret tt
  else
    tryCatch
      (page_waitForFunction browser (selector profile)
         (slugImageLoaded (selector profile))
         (channelSelectorDelay (CONFIG env)))
      (ret tt).

Definition unknownStrategyFormat : jsstring :=
  js "Unknown channel selection strategy: %s.".

(** Lines 210-223: dispatch through the registry. *)
Definition dispatch (profile : ChannelSelectionProfile)
    : Async World ChannelSelectorResult :=
  match strategies_get (strategy (selection profile)) with
  | None =>
      LOG (LogWarn unknownStrategyFormat
             [ArgString (strategy (selection profile))]) ;;
      ret (failed (js "Unknown channel selection strategy."))
  | Some strategyFn =>
      result <- call strategyFn profile ;;
      ret result
  end.

(** ** channelSelection.ts: selectChannel *)
Definition selectChannel (profile : ResolvedSiteProfile)
    : Async World ChannelSelectorResult :=
  if streq (strategy (channelSelection profile)) (js "none")
  then ret succeeded
  else
    match isChannelSelectionProfile profile with
    | None => ret succeeded
    | Some narrowed =>
        pollSlugImage narrowed ;;
        dispatch narrowed
    end.

End Coordinator.

(* ================================================================== *)
(** * Part II. Vocabulary of the properties, and test pages            *)
(* ================================================================== *)

(** ** White-space-separated words, the normal form of a channel name *)

Definition isWord (w : jsstring) : Prop :=
  w <> [] /\ Forall (fun c => isWhiteSpace c = false) w.

(** The maximal runs of code units that are not white space. *)
Fixpoint words (s : jsstring) : list jsstring :=
  match s with
  | [] => []
  | c :: r =>
      if isWhiteSpace c then words r
      else
        match r with
        | [] => [[c]]
        | c' :: _ =>
            if isWhiteSpace c' then [c] :: words r
            else
              match words r with
              | w :: ws => (c :: w) :: ws
              | [] => [[c]]
              end
        end
  end.

Definition unwords (ws : list jsstring) : jsstring := join [32] ws.

(** [toLowerCase] on strings of ASCII code units: the instance of the host
    function at which the functions above are run on concrete names. *)
Definition asciiToLowerCase (s : jsstring) : jsstring := map asciiLower s.

(** ** logAvailableChannels: the coverage test *)

(** The coverage test in the words of the specification: the lowercased
    name, once its trailing parenthetical is stripped, equals a known
    selector, or the lowercased name is a known selector, one space, an
    ASCII digit and anything after. *)
Definition Covered (known : list jsstring) (lower : jsstring) : Prop :=
  exists sel,
    In sel known
    /\ (stripParenthetical lower = sel
        \/ exists digit rest,
             48 <= digit <= 57 /\ lower = sel ++ 32 :: digit :: rest).

(** A trailing parenthetical: a space, an opening parenthesis, a body
    without line terminators, and a closing parenthesis that ends the name. *)
Definition isParenthetical (tail : jsstring) : Prop :=
  exists body,
    tail = js " (" ++ body ++ js ")"
    /\ Forall (fun c => isLineTerminator c = false) body.

(** ** logAvailableChannels: filtered mode *)

Definition espnNames : list jsstring :=
  [ js "ESPN"; js "ESPN 2"; js "ESPN News"; js "ESPN (West)" ].

(** A preset table and options under which the known selectors are
    [["espn"]]. *)
Definition espnChannels : list (jsstring * Channel) :=
  [ (js "espn-yttv", {| channelSelector_of := Some (js "ESPN") |});
    (js "espn-hulu", {| channelSelector_of := Some (js "ESPN") |});
    (js "local-yttv", {| channelSelector_of := None |}) ].

Definition espnOptions : LogAvailableChannelsOptions :=
  {| additionalKnownNames := None;
     availableChannels := espnNames;
     channelName := js "ESPNU";
     guideUrl := js "https://tv.youtube.com/live";
     presetSuffix := Some (js "-yttv");
     providerName := js "YouTube TV" |}.

Definition hasNoSelector (ch : Channel) : Prop :=
  channelSelector_of ch = None \/ channelSelector_of ch = Some [].

(** ** A scripted page

    A small page on which the functions are run: the document is fixed, the
    world counts mouse clicks and elapsed waits, and the play button is
    present or not as a function of both. *)

Record MockWorld := { clicks : nat; ticks : nat }.

Record MockPage := {
  mock_images : list HTMLImageElement;
  mock_body : nat;
  mock_rect : nat -> DOMRect;
  mock_cursor : nat -> jsstring;
  mock_playButton : MockWorld -> option HTMLElement
}.

Definition tick (w : MockWorld) : MockWorld :=
  {| clicks := clicks w; ticks := S (ticks w) |}.

Definition isSome {A} (o : option A) : bool :=
  match o with Some _ => true | None => false end.

Definition mockBrowser (p : MockPage) : Browser MockWorld :=
  {| querySelectorAll_img := fun _ => mock_images p;
     querySelector := fun _ w => mock_playButton p w;
     document_body := fun _ => mock_body p;
     getBoundingClientRect := fun n _ => mock_rect p n;
     getComputedStyle_cursor := fun n _ => mock_cursor p n;
     scrollIntoView := fun _ w => w;
     waitForFunction := fun predicate _ w => (predicate w, tick w);
     waitForSelector := fun _ hidden _ w =>
       (if hidden then negb (isSome (mock_playButton p w))
        else isSome (mock_playButton p w), tick w);
     mouse_click := fun _ _ w => {| clicks := S (clicks w); ticks := ticks w |};
     delay := fun _ w => w |}.

(** An environment in which the imported strategies are plain functions, as
    the registry's type [Record<string, ChannelStrategyFn>] declares, and
    [Object.prototype] has its standard members.  Each member is given the
    behaviour of those that convert their [this], such as [valueOf] and
    [hasOwnProperty]: called as a plain function it throws a [TypeError].
    ([toString], [constructor] and [__proto__] are inherited too and found
    by a lookup; what a call of them yields is not described here, and no
    statement below calls them.) *)
Definition objectPrototypeMembers : list jsstring :=
  [ js "constructor"; js "hasOwnProperty"; js "isPrototypeOf";
    js "propertyIsEnumerable"; js "toLocaleString"; js "toString";
    js "valueOf"; js "__proto__"; js "__defineGetter__"; js "__defineSetter__";
    js "__lookupGetter__"; js "__lookupSetter__" ].

Definition mockStrategy {World} : JSValue World :=
  FunctionValue (fun _ => ret succeeded).

Definition hostBuiltin {World} : JSValue World :=
  FunctionValue
    (fun _ => throw (TypeError (js "Cannot convert undefined or null to object"))).

Definition mockConfig : Config :=
  {| channelSelectorDelay := 3000; videoTimeout := 10000 |}.

Definition mockEnv {World} : Environment World :=
  {| CONFIG := mockConfig;
     foxGridStrategy := mockStrategy;
     guideGridStrategy := mockStrategy;
     hboGridStrategy := mockStrategy;
     slingGridStrategy := mockStrategy;
     thumbnailRowStrategy := mockStrategy;
     youtubeGridStrategy := mockStrategy;
     Object_prototype := fun key =>
       if existsb (fun m => streq m key) objectPrototypeMembers
       then Some hostBuiltin else None |}.

Definition square (side : Q) : DOMRect :=
  {| rect_x := 0; rect_y := 0; rect_width := side; rect_height := side |}.

Definition emptyPage : MockPage :=
  {| mock_images := [];
     mock_body := 0%nat;
     mock_rect := fun _ => square 0;
     mock_cursor := fun _ => js "auto";
     mock_playButton := fun _ => None |}.

Definition startOf (w : MockWorld) : Runtime MockWorld :=
  {| world := w; logs := []; trace := [] |}.

Definition freshWorld : MockWorld := {| clicks := 0; ticks := 0 |}.

Definition profileOf (name : jsstring) (slug : option jsstring)
    (play : option jsstring) : ResolvedSiteProfile :=
  {| channelSelection := {| strategy := name; playSelector := play |};
     channelSelector := slug |}.

Section PollVocabulary.

Context {World : Type}.
Variable env : Environment World.

Definition pollOps (profile : ChannelSelectionProfile) : list PageOp :=
  if skipsImagePolling (strategy (selection profile))
  then []
  else [OpWaitForFunction (selector profile) (channelSelectorDelay (CONFIG env))].

End PollVocabulary.







Definition narrow (profile : ResolvedSiteProfile) (slug : jsstring)
    : ChannelSelectionProfile :=
  {| selection := channelSelection profile; selector := slug |}.

Section TierVocabulary.

Context {World : Type}.
Variable browser : Browser World.

(** The ancestors the walk inspects, each with the world in which it is
    inspected: a semantic ancestor is scrolled into view first.  [stop]
    tells where the walk ends. *)
Fixpoint visits (stop : HTMLElement -> World -> bool)
    (chain : list HTMLElement) (w : World) : list (HTMLElement * World) :=
  match chain with
  | [] => []
  | a :: parents =>
      if stop a w then []
      else
        let w1 :=
          if isSemanticClickable a then scrollIntoView browser (node a) w else w in
        (a, w1) :: visits stop parents w1
  end.

Definition atBody (a : HTMLElement) (w : World) : bool :=
  (node a =? document_body browser w)%nat.

Definition lastWorld (vs : list (HTMLElement * World)) (w : World) : World :=
  last (map snd vs) w.

(** Tier 1: a semantic clickable with a box of positive area. *)
Definition semanticHit (v : HTMLElement * World) : bool :=
  isSemanticClickable (fst v)
  && hasArea (getBoundingClientRect browser (node (fst v)) (snd v)).

(** Tier 2: a box larger than 20 by 20 under a pointer cursor. *)
Definition pointerHit (v : HTMLElement * World) : bool :=
  isPointerCandidate browser (fst v) (snd v).

(** The two tiers over the visited ancestors: the first semantic hit wins;
    without one, the nearest pointer hit is scrolled into view and used if
    its box has positive area. *)
Definition tiers (vs : list (HTMLElement * World)) (w : World)
    : option ClickTarget * World :=
  match find semanticHit vs with
  | Some (a, w1) =>
      (Some (centerOf (getBoundingClientRect browser (node a) w1)), w1)
  | None =>
      match find pointerHit vs with
      | Some (a, _) =>
          let w2 := scrollIntoView browser (node a) (lastWorld vs w) in
          let rect := getBoundingClientRect browser (node a) w2 in
          if hasArea rect then (Some (centerOf rect), w2) else (None, w2)
      | None => (None, lastWorld vs w)
      end
  end.

Definition matchesSlug (slug : jsstring) (img : HTMLImageElement) (w : World)
    : bool :=
  includes (src img) slug
  && hasArea (getBoundingClientRect browser (img_node img) w).

(** What one image yields, by tiers, over its ancestors below
    [document.body]. *)
Definition tileOfImageTiers (slug : jsstring) (img : HTMLImageElement)
    (w : World) : option ClickTarget * World :=
  if matchesSlug slug img w
  then tiers (visits atBody (parentChain img) w) w
  else (None, w).

(** Locate as C9 words it: the first image that matches decides, the walk
    runs to the root, and Locate fails when that image yields nothing. *)
Definition locateAsClaimed (slug : jsstring) (w : World) : option ClickTarget :=
  match find (fun img => matchesSlug slug img w) (querySelectorAll_img browser w) with
  | Some img => fst (tiers (visits (fun _ _ => false) (parentChain img) w) w)
  | None => None
  end.

End TierVocabulary.

Definition element (n : nat) (tag : string) (onclickAttr : bool) : HTMLElement :=
  {| node := n; tagName := js tag; roleAttribute := None;
     hasOnclick := onclickAttr |}.

Definition image (n : nat) (url : string) (chain : list HTMLElement)
    : HTMLImageElement :=
  {| img_node := n; src := js url; complete := true; naturalWidth := 320;
     parentChain := chain |}.

(** Two tiles for the same slug: the first sits in a plain [div], the second
    in an anchor.  Every box is 100 by 100. *)
Definition twoTilePage : MockPage :=
  {| mock_images :=
       [ image 1 "https://cdn.example/poster_linear_espn_none.png"
           [ element 2 "DIV" false; element 0 "BODY" false; element 9 "HTML" false ];
         image 3 "https://cdn.example/poster_linear_espn_none.png"
           [ element 4 "A" false; element 0 "BODY" false; element 9 "HTML" false ] ];
     mock_body := 0%nat;
     mock_rect := fun _ => square 100;
     mock_cursor := fun _ => js "auto";
     mock_playButton := fun _ => None |}.

(** One tile directly under a [body] that carries an [onclick] attribute. *)
Definition bodyOnclickPage : MockPage :=
  {| mock_images :=
       [ image 1 "https://cdn.example/poster_linear_espn_none.png"
           [ element 0 "BODY" true; element 9 "HTML" false ] ];
     mock_body := 0%nat;
     mock_rect := fun _ => square 100;
     mock_cursor := fun _ => js "auto";
     mock_playButton := fun _ => None |}.

Definition tileProfile (play : option jsstring) : ChannelSelectionProfile :=
  {| selection := {| strategy := js "tileClick"; playSelector := play |};
     selector := js "espn" |}.

(** ** tileClick: Confirm *)

(** The page operations of one attempt that clicks at [t]: read, settle,
    click, verify. *)
Definition attemptOps (sel : jsstring) (t : ClickTarget) : list PageOp :=
  [ OpEvaluate (ReadPlayTarget sel);
    OpDelay 200;
    OpMouseClick (target_x t) (target_y t);
    OpWaitForSelector sel true PLAY_CLICK_VERIFY_TIMEOUT ].

(** The page operations up to the start of the retry loop. *)
Definition locateOps (slug sel : jsstring) (tile : ClickTarget) (timeout : N)
    : list PageOp :=
  [ OpEvaluate (FindTile slug);
    OpDelay 200;
    OpMouseClick (target_x tile) (target_y tile);
    OpWaitForSelector sel false timeout ].

Definition isPlayRead (op : PageOp) : bool :=
  match op with
  | OpEvaluate (ReadPlayTarget _) => true
  | _ => false
  end.

Definition isVerification (op : PageOp) : bool :=
  match op with
  | OpWaitForSelector _ true _ => true
  | _ => false
  end.

(** The number of coordinate reads, and of click-and-verify cycles, in a
    trace. *)
Definition playReads (ops : list PageOp) : nat :=
  List.length (filter isPlayRead ops).

Definition verifications (ops : list PageOp) : nat :=
  List.length (filter isVerification ops).

Definition retryLog (attempt : nat) : list LogEntry :=
  if (attempt <? MAX_PLAY_CLICK_ATTEMPTS - 1)%nat
  then [LogInfo retryFormat
          [ArgNumber (attempt + 1); ArgNumber MAX_PLAY_CLICK_ATTEMPTS]]
  else [].

Section ClickVocabulary.

Context {World : Type}.
Variable browser : Browser World.

(** The state in which the click at [t], read in world [w1], is verified. *)
Definition clickedAt (t : ClickTarget) (w1 : World) : World :=
  mouse_click browser (target_x t) (target_y t) (delay browser 200 w1).

End ClickVocabulary.

Section ConfirmVocabulary.

Context {World : Type}.
Variable config : Config.

(** The runtime in which the retry loop starts. *)
Definition confirmStart (rt : Runtime World) (slug sel : jsstring)
    (tile : ClickTarget) (w1 : World) : Runtime World :=
  {| world := w1;
     logs := logs rt;
     trace := trace rt ++ locateOps slug sel tile (videoTimeout config) |}.

End ConfirmVocabulary.

Definition playButton : HTMLElement := element 7 "BUTTON" false.

(** A tile in an anchor and a play button that is always there. *)
Definition stuckPage : MockPage :=
  {| mock_images :=
       [ image 1 "https://cdn.example/poster_linear_espn_none.png"
           [ element 4 "A" false; element 0 "BODY" false ] ];
     mock_body := 0%nat;
     mock_rect := fun _ => square 100;
     mock_cursor := fun _ => js "auto";
     mock_playButton := fun _ => Some playButton |}.

(** The same tile; the play button goes away while the second wait runs. *)
Definition racePage : MockPage :=
  {| mock_images := mock_images stuckPage;
     mock_body := 0%nat;
     mock_rect := fun _ => square 100;
     mock_cursor := fun _ => js "auto";
     mock_playButton := fun w =>
       if (ticks w <? 2)%nat then Some playButton else None |}.

(** The same tile; the play button is in the document with an empty box. *)
Definition flatButtonPage : MockPage :=
  {| mock_images := mock_images stuckPage;
     mock_body := 0%nat;
     mock_rect := fun n => if (n =? 7)%nat then square 0 else square 100;
     mock_cursor := fun _ => js "auto";
     mock_playButton := fun _ => Some playButton |}.

Definition playProfile : ChannelSelectionProfile :=
  tileProfile (Some (js "button.watch-live")).

(** ** logAvailableChannels: modes and options *)

(** Whether [if(presetSuffix)] takes the filtering branch. *)
Definition isFiltered (options : LogAvailableChannelsOptions) : bool :=
  match presetSuffix options with
  | Some (_ :: _) => true
  | _ => false
  end.

(** The same options with another [additionalKnownNames]. *)
Definition withAdditional (options : LogAvailableChannelsOptions)
    (names : option (list jsstring)) : LogAvailableChannelsOptions :=
  {| additionalKnownNames := names;
     availableChannels := availableChannels options;
     channelName := channelName options;
     guideUrl := guideUrl options;
     presetSuffix := presetSuffix options;
     providerName := providerName options |}.

Definition isBlank (s : jsstring) : bool := forallb isWhiteSpace s.

(** ** tileClick: what a run does to the page *)

Definition isMouseClick (op : PageOp) : bool :=
  match op with
  | OpMouseClick _ _ => true
  | _ => false
  end.

Definition mouseClicks (ops : list PageOp) : nat :=
  List.length (filter isMouseClick ops).

(** Every mouse click comes right after the settle delay of 200 ms.
    [afterDelay] tells that the previous operation was that delay. *)
Fixpoint settledFrom (afterDelay : bool) (ops : list PageOp) : bool :=
  match ops with
  | [] => true
  | OpMouseClick _ _ :: rest => afterDelay && settledFrom false rest
  | OpDelay ms :: rest => settledFrom (ms =? 200) rest
  | _ :: rest => settledFrom false rest
  end.

(** The page operations a run of the strategy can issue: the tile was not
    found; or it was clicked and nothing more was asked of the page; or the
    play button was awaited, followed by complete attempts and possibly one
    last read. *)
Inductive TileClickTrace (slug : jsstring) (timeout : N) : list PageOp -> Prop :=
| TraceNotFound :
    TileClickTrace slug timeout [OpEvaluate (FindTile slug)]
| TraceTileOnly (tile : ClickTarget) :
    TileClickTrace slug timeout
      [ OpEvaluate (FindTile slug); OpDelay 200;
        OpMouseClick (target_x tile) (target_y tile) ]
| TraceConfirm (sel : jsstring) (tile : ClickTarget)
    (attempts : list ClickTarget) (lastRead : list PageOp) :
    (List.length attempts <= MAX_PLAY_CLICK_ATTEMPTS)%nat ->
    lastRead = [] \/ lastRead = [OpEvaluate (ReadPlayTarget sel)] ->
    TileClickTrace slug timeout
      (locateOps slug sel tile timeout
       ++ List.concat (map (attemptOps sel) attempts) ++ lastRead).

Definition isInfoOrDebug (entry : LogEntry) : bool :=
  match entry with
  | LogWarn _ _ => false
  | _ => true
  end.

(** The ways a run of the strategy can end. *)
Definition tileClickOutcomes : list ChannelSelectorResult :=
  [ succeeded;
    failed (js "Channel tile not found in page images.");
    failed (js "Play button did not appear after clicking channel tile.");
    failed (js "Play button found but has no dimensions.");
    failed (js "Play button click did not dismiss the modal after 3 attempts.") ].

(** The retry messages of a loop that misses [remaining] times in a row. *)
Fixpoint retryLogs (remaining : nat) : list LogEntry :=
  match remaining with
  | O => []
  | S r => retryLog (MAX_PLAY_CLICK_ATTEMPTS - remaining) ++ retryLogs r
  end.

(** The tile of [stuckPage]; the play button leaves with the click on it. *)
Definition dismissPage : MockPage :=
  {| mock_images := mock_images stuckPage;
     mock_body := 0%nat;
     mock_rect := fun _ => square 100;
     mock_cursor := fun _ => js "auto";
     mock_playButton := fun w =>
       if (clicks w <? 2)%nat then Some playButton else None |}.

(* ================================================================== *)
(** * Part III. Properties                                             *)
(* ================================================================== *)


(** ** The model on concrete inputs *)

Example String_of_nat_120 : String_of_nat 120 = js "120".
Proof. reflexivity. Qed.

Example includes_slug :
  includes (js "https://cdn.example/poster_linear_espn_none.png") (js "espn") = true
  /\ includes (js "poster_linear_fx_none") (js "espn") = false.
Proof. split; reflexivity. Qed.

Example stripParenthetical_west :
  stripParenthetical (js "espn (west)") = js "espn".
Proof. reflexivity. Qed.

Example stripParenthetical_leftmost :
  stripParenthetical (js "a (b) (c)") = js "a".
Proof. reflexivity. Qed.

Example stripParenthetical_line_break :
  stripParenthetical (js "a (b" ++ [10] ++ js "c)") = js "a (b" ++ [10] ++ js "c)".
Proof. reflexivity. Qed.

Example stripParenthetical_inner :
  stripParenthetical (js "espn (west) hd") = js "espn (west) hd".
Proof. reflexivity. Qed.

Example normalizeChannelName_tabs :
  normalizeChannelName asciiToLowerCase ([9] ++ js "Fox" ++ [160; 9] ++ js "News" ++ [10])
  = js "fox news".
Proof. reflexivity. Qed.

Example logAvailableChannels_espn :
  logAvailableChannels asciiToLowerCase espnChannels espnOptions
  = [ LogWarn availableChannelsFormat
        [ ArgString (js "ESPNU"); ArgString (js "YouTube TV");
          ArgString (js "https://tv.youtube.com/live");
          ArgString (js "uncovered (1 of 4)"); ArgString (js "ESPN News") ] ].
Proof. reflexivity. Qed.

Example tileClick_without_play_button :
  tileClickStrategyFn (mockBrowser stuckPage) mockConfig (tileProfile None)
    (startOf freshWorld)
  = (Normal succeeded,
     {| world := {| clicks := 1; ticks := 0 |};
        logs := [];
        trace := [ OpEvaluate (FindTile (js "espn")); OpDelay 200;
                   OpMouseClick (target_x (centerOf (square 100)))
                     (target_y (centerOf (square 100))) ] |}).
Proof. reflexivity. Qed.

Example selectChannel_hboGrid_runs_the_strategy :
  selectChannel (mockBrowser emptyPage) mockEnv
    (profileOf (js "hboGrid") (Some (js "HBO")) None) (startOf freshWorld)
  = (Normal succeeded, startOf freshWorld).
Proof. reflexivity. Qed.


(** ** Strings *)

Lemma streq_true_iff : forall a b, streq a b = true <-> a = b.
Proof.
  induction a as [|x a IH]; intros [|y b]; simpl; split; intros H;
    try reflexivity; try discriminate.
  - apply andb_true_iff in H. destruct H as [Hxy Hab].
    apply N.eqb_eq in Hxy. apply IH in Hab. now subst.
  - injection H as -> ->. apply andb_true_iff. split.
    + apply N.eqb_refl.
    + now apply IH.
Qed.

Lemma streq_refl : forall a, streq a a = true.
Proof. intros a. now apply streq_true_iff. Qed.

Lemma startsWith_app_iff :
  forall p s, startsWith s p = true <-> exists rest, s = p ++ rest.
Proof.
  induction p as [|y p IH]; intros s; simpl.
  - split; [intros _; now exists s | intros _; now destruct s].
  - destruct s as [|x s]; simpl.
    + split; [discriminate | intros [rest H]; discriminate].
    + rewrite andb_true_iff, N.eqb_eq, IH. split.
      * intros [-> [rest ->]]. now exists rest.
      * intros [rest H]. injection H as -> ->. split; [reflexivity | now exists rest].
Qed.

Lemma isWhiteSpace_true_range :
  forall c, isWhiteSpace c = true -> c <= 32 \/ 160 <= c.
Proof.
  intros c. unfold isWhiteSpace.
  repeat rewrite orb_true_iff. repeat rewrite andb_true_iff.
  repeat rewrite N.eqb_eq. repeat rewrite N.leb_le. lia.
Qed.

Lemma isWhiteSpace_asciiLower :
  forall c, isWhiteSpace (asciiLower c) = isWhiteSpace c.
Proof.
  intros c. unfold asciiLower.
  destruct ((65 <=? c) && (c <=? 90)) eqn:E; [|reflexivity].
  apply andb_true_iff in E. destruct E as [E1 E2].
  apply N.leb_le in E1. apply N.leb_le in E2.
  destruct (isWhiteSpace (c + 32)) eqn:A.
  - apply isWhiteSpace_true_range in A. lia.
  - destruct (isWhiteSpace c) eqn:B; [|reflexivity].
    apply isWhiteSpace_true_range in B. lia.
Qed.

Lemma asciiLower_idem : forall c, asciiLower (asciiLower c) = asciiLower c.
Proof.
  intros c. unfold asciiLower.
  destruct ((65 <=? c) && (c <=? 90)) eqn:E.
  - apply andb_true_iff in E. destruct E as [E1 E2].
    apply N.leb_le in E1. apply N.leb_le in E2.
    destruct ((65 <=? c + 32) && (c + 32 <=? 90)) eqn:F; [|reflexivity].
    apply andb_true_iff in F. destruct F as [_ F2]. apply N.leb_le in F2. lia.
  - now rewrite E.
Qed.

Lemma replaceRuns_in_run :
  forall s, replaceRuns true s = replaceRuns false (trimStart s).
Proof.
  induction s as [|c r IH]; simpl; [reflexivity|].
  destruct (isWhiteSpace c) eqn:E; simpl; [exact IH | now rewrite E].
Qed.

Lemma trimStart_trimEnd :
  forall s, trimStart (trimEnd s) = trimEnd (trimStart s).
Proof.
  induction s as [|c r IH]; [reflexivity|].
  cbn [trimStart trimEnd].
  destruct (isWhiteSpace c) eqn:E; cbn [andb].
  - destruct (trimEnd r) as [|d t] eqn:T; cbn [isEmpty].
    + rewrite <- IH. reflexivity.
    + cbn [trimStart]. rewrite E. exact IH.
  - cbn [trimStart trimEnd]. now rewrite E.
Qed.

Lemma words_nil_iff_trimEnd :
  forall s, words s = [] <-> trimEnd s = [].
Proof.
  induction s as [|c r IH]; simpl; [tauto|].
  destruct (isWhiteSpace c) eqn:E; simpl.
  - rewrite IH. destruct (trimEnd r); simpl; split; congruence.
  - split; [|discriminate].
    destruct r as [|c' r']; [discriminate|].
    destruct (isWhiteSpace c'); [discriminate|].
    destruct (words (c' :: r')); discriminate.
Qed.

Lemma unwords_cons_word :
  forall c w ws, unwords ((c :: w) :: ws) = c :: unwords (w :: ws).
Proof. intros c w [|w' ws]; reflexivity. Qed.

Lemma isEmpty_true : forall s, isEmpty s = true -> s = [].
Proof. intros [|c r]; [reflexivity | discriminate]. Qed.

Lemma trim_replace_words :
  forall s, replaceWhiteSpaceRuns (trim s) = unwords (words s).
Proof.
  unfold replaceWhiteSpaceRuns, trim.
  induction s as [|c r IH]; [reflexivity|].
  cbn [trimStart words].
  destruct (isWhiteSpace c) eqn:E; [exact IH|].
  cbn [trimEnd]. rewrite E. cbn [andb replaceRuns]. rewrite E.
  destruct r as [|c' r']; [reflexivity|].
  destruct (isWhiteSpace c') eqn:E'.
  - cbn [trimStart words] in IH. rewrite E' in IH.
    cbn [trimEnd words]. rewrite E'. cbn [andb].
    destruct (isEmpty (trimEnd r')) eqn:T.
    + apply isEmpty_true in T. apply words_nil_iff_trimEnd in T.
      rewrite T. reflexivity.
    + cbn [replaceRuns]. rewrite E'.
      rewrite replaceRuns_in_run, trimStart_trimEnd, IH.
      destruct (words r') as [|w ws] eqn:W; [|reflexivity].
      apply words_nil_iff_trimEnd in W. rewrite W in T. discriminate.
  - assert (S : trimStart (c' :: r') = c' :: r') by (simpl; now rewrite E').
    rewrite S in IH. rewrite IH.
    destruct (words (c' :: r')) as [|w ws]; [reflexivity|].
    now rewrite unwords_cons_word.
Qed.

Lemma words_are_words : forall s, Forall isWord (words s).
Proof.
  induction s as [|c r IH]; simpl; [constructor|].
  destruct (isWhiteSpace c) eqn:E; [exact IH|].
  destruct r as [|c' r'].
  - repeat constructor; [discriminate | exact E].
  - destruct (isWhiteSpace c') eqn:E'.
    + constructor; [|exact IH]. repeat constructor; [discriminate | exact E].
    + destruct (words (c' :: r')) as [|w ws].
      * repeat constructor; [discriminate | exact E].
      * inversion IH as [|? ? [Hne Hw] Hws]; subst.
        constructor; [|exact Hws]. split; [discriminate | now constructor].
Qed.

Lemma words_of_word : forall w, isWord w -> words w = [w].
Proof.
  induction w as [|c r IH]; intros [Hne Hw]; [congruence|].
  inversion Hw as [|? ? Hc Hr]; subst. simpl. rewrite Hc.
  destruct r as [|c' r']; [reflexivity|].
  inversion Hr as [|? ? Hc' Hr']; subst. rewrite Hc'.
  rewrite IH; [reflexivity | split; [discriminate | exact Hr]].
Qed.

Lemma words_word_space :
  forall w t, isWord w -> words (w ++ 32 :: t) = w :: words t.
Proof.
  induction w as [|c r IH]; intros t [Hne Hw]; [congruence|].
  inversion Hw as [|? ? Hc Hr]; subst.
  cbn [app words]. rewrite Hc.
  destruct r as [|c' r']; [reflexivity|].
  inversion Hr as [|? ? Hc' Hr']; subst.
  cbn [app]. rewrite Hc'.
  change (c' :: r' ++ 32 :: t) with ((c' :: r') ++ 32 :: t).
  rewrite IH; [reflexivity | split; [discriminate | exact Hr]].
Qed.

Lemma words_unwords : forall ws, Forall isWord ws -> words (unwords ws) = ws.
Proof.
  induction ws as [|w ws IH]; intros H; [reflexivity|].
  inversion H as [|? ? Hw Hws]; subst.
  destruct ws as [|w' ws'].
  - now apply words_of_word.
  - change (unwords (w :: w' :: ws')) with (w ++ 32 :: unwords (w' :: ws')).
    rewrite words_word_space by exact Hw. now rewrite IH.
Qed.

Lemma asciiToLowerCase_idem :
  forall s, asciiToLowerCase (asciiToLowerCase s) = asciiToLowerCase s.
Proof.
  intros s. unfold asciiToLowerCase. rewrite map_map.
  apply map_ext. exact asciiLower_idem.
Qed.

Lemma asciiToLowerCase_space :
  forall a b,
    asciiToLowerCase (a ++ 32 :: b)
    = asciiToLowerCase a ++ 32 :: asciiToLowerCase b.
Proof. intros a b. unfold asciiToLowerCase. now rewrite map_app. Qed.

Lemma asciiToLowerCase_word :
  forall w, isWord w -> isWord (asciiToLowerCase w).
Proof.
  intros w [Hne Hw]. split.
  - destruct w; [congruence | discriminate].
  - unfold asciiToLowerCase. apply Forall_map.
    eapply Forall_impl; [|exact Hw].
    intros c Hc. now rewrite isWhiteSpace_asciiLower.
Qed.

(** ** normalizeChannelName *)

Section NormalizeProperties.

Variable toLowerCase : jsstring -> jsstring.

(** What the proofs use of the host's case mapping: it is the ASCII mapping
    on ASCII strings, it is idempotent, it works word by word across an ASCII
    space, and it maps a word to a word (it neither empties a string nor
    produces white space). *)
Hypothesis toLowerCase_ascii :
  forall s, Forall isAscii s -> toLowerCase s = map asciiLower s.

Hypothesis toLowerCase_idem :
  forall s, toLowerCase (toLowerCase s) = toLowerCase s.

Hypothesis toLowerCase_space :
  forall a b, toLowerCase (a ++ 32 :: b) = toLowerCase a ++ 32 :: toLowerCase b.

Hypothesis toLowerCase_word :
  forall w, isWord w -> isWord (toLowerCase w).

Lemma toLowerCase_nil : toLowerCase [] = [].
Proof. now rewrite toLowerCase_ascii by constructor. Qed.

Lemma toLowerCase_unwords :
  forall ws, toLowerCase (unwords ws) = unwords (map toLowerCase ws).
Proof.
  induction ws as [|w ws IH]; [exact toLowerCase_nil|].
  destruct ws as [|w' ws']; [reflexivity|].
  change (unwords (w :: w' :: ws')) with (w ++ 32 :: unwords (w' :: ws')).
  rewrite toLowerCase_space, IH. reflexivity.
Qed.

Lemma normalizeChannelName_words :
  forall s,
    normalizeChannelName toLowerCase s = unwords (map toLowerCase (words s)).
Proof.
  intros s. unfold normalizeChannelName.
  now rewrite trim_replace_words, toLowerCase_unwords.
Qed.

Lemma normalized_is_fixed :
  forall ws,
    Forall isWord ws ->
    replaceWhiteSpaceRuns (trim (unwords ws)) = unwords ws.
Proof.
  intros ws H. now rewrite trim_replace_words, words_unwords.
Qed.

(** C8. Normalization is idempotent; it turns a name into its words, each
    lowercased, joined by single ASCII spaces; and ["WLS  "], ["WLS"] and
    ["wls"] followed by U+00A0 all normalize to ["wls"]. *)
Theorem normalizeChannelName_idempotent :
  (forall s,
     normalizeChannelName toLowerCase (normalizeChannelName toLowerCase s)
     = normalizeChannelName toLowerCase s)
  /\ (forall s,
        normalizeChannelName toLowerCase s
        = toLowerCase (unwords (words s)))
  /\ normalizeChannelName toLowerCase (js "WLS  ") = js "wls"
  /\ normalizeChannelName toLowerCase (js "WLS") = js "wls"
  /\ normalizeChannelName toLowerCase (js "wls" ++ [160]) = js "wls".
Proof.
  split; [|split].
  - intros s. rewrite (normalizeChannelName_words s).
    assert (W : Forall isWord (map toLowerCase (words s))).
    { apply Forall_map. eapply Forall_impl; [|apply words_are_words].
      exact toLowerCase_word. }
    unfold normalizeChannelName. rewrite (normalized_is_fixed W).
    rewrite <- toLowerCase_unwords. apply toLowerCase_idem.
  - intros s. unfold normalizeChannelName. now rewrite trim_replace_words.
  - assert (A : toLowerCase (js "WLS") = js "wls").
    { rewrite toLowerCase_ascii; [reflexivity|].
      repeat constructor. }
    assert (B : toLowerCase (js "wls") = js "wls").
    { rewrite toLowerCase_ascii; [reflexivity|].
      repeat constructor. }
    unfold normalizeChannelName. repeat split.
    + exact A.
    + exact A.
    + exact B.
Qed.

End NormalizeProperties.

(** The theorem at the ASCII case mapping. *)
Lemma normalizeChannelName_idempotent_witness :
  (forall s,
     normalizeChannelName asciiToLowerCase (normalizeChannelName asciiToLowerCase s)
     = normalizeChannelName asciiToLowerCase s)
  /\ normalizeChannelName asciiToLowerCase (js "  Fox   News ") = js "fox news".
Proof.
  split.
  - apply (@normalizeChannelName_idempotent asciiToLowerCase
             (fun s _ => eq_refl)
             asciiToLowerCase_idem
             asciiToLowerCase_space
             asciiToLowerCase_word).
  - reflexivity.
Defined.

(** ** logAvailableChannels *)

Lemma matchesToClosingParen_iff :
  forall r,
    matchesToClosingParen r = true
    <-> exists body,
          r = body ++ [41] /\ Forall (fun c => isLineTerminator c = false) body.
Proof.
  induction r as [|c r IH].
  - split; [discriminate | intros [[|b body] [H _]]; discriminate].
  - destruct r as [|c' r'].
    + simpl. rewrite N.eqb_eq. split.
      * intros ->. exists []. split; [reflexivity | constructor].
      * intros [[|b body] [H _]]; [now injection H|].
        injection H as -> H. destruct body; discriminate.
    + change (matchesToClosingParen (c :: c' :: r'))
        with (negb (isLineTerminator c) && matchesToClosingParen (c' :: r')).
      rewrite andb_true_iff, negb_true_iff, IH. split.
      * intros [Hc [body [-> Hb]]]. exists (c :: body). split; [reflexivity|].
        now constructor.
      * intros [[|b body] [H Hb]]; [discriminate|].
        injection H as -> H. inversion Hb; subst. split; [assumption|].
        now exists body.
Qed.

Lemma parentheticalAt_iff :
  forall s, parentheticalAt s = true <-> isParenthetical s.
Proof.
  intros s. unfold isParenthetical.
  change (js " (") with [32; 40]. change (js ")") with [41].
  split.
  - destruct s as [|a [|b r]]; try discriminate. simpl.
    rewrite !andb_true_iff, !N.eqb_eq. intros [[-> ->] H].
    apply matchesToClosingParen_iff in H.
    destruct H as [body [-> Hb]]. now exists body.
  - intros [body [-> Hb]]. simpl. apply matchesToClosingParen_iff.
    now exists body.
Qed.

(** Stripping removes a suffix of the name, which is empty or a trailing
    parenthetical. *)
Lemma stripParenthetical_spec :
  forall s,
    exists tail,
      s = stripParenthetical s ++ tail /\ (tail = [] \/ isParenthetical tail).
Proof.
  induction s as [|c r IH].
  - exists []. split; [reflexivity | now left].
  - destruct (parentheticalAt (c :: r)) eqn:P.
    + exists (c :: r). unfold stripParenthetical. rewrite P.
      split; [reflexivity | right; now apply parentheticalAt_iff].
    + destruct IH as [tail [Hs Ht]]. exists tail.
      assert (E : stripParenthetical (c :: r) = c :: stripParenthetical r).
      { unfold stripParenthetical at 1. rewrite P. reflexivity. }
      rewrite E. split; [simpl; now rewrite <- Hs | exact Ht].
Qed.

Lemma nth_error_after_prefix :
  forall (p rest : jsstring),
    nth_error (p ++ rest) (List.length p) = nth_error rest 0.
Proof.
  intros p rest. rewrite nth_error_app2 by lia. now rewrite Nat.sub_diag.
Qed.

Lemma coveredBy_iff :
  forall lower stripped sel,
    coveredBy lower stripped sel = true
    <-> stripped = sel
        \/ exists digit rest,
             48 <= digit <= 57 /\ lower = sel ++ 32 :: digit :: rest.
Proof.
  intros lower stripped sel. unfold coveredBy.
  change (js " ") with [32].
  rewrite orb_true_iff, streq_true_iff, !andb_true_iff, startsWith_app_iff.
  split; (intros [H|H]; [now left | right]).
  - destruct H as [[[rest ->] _] D]. rewrite <- app_assoc in D |- *.
    simpl in D |- *. unfold charCodeAt in D.
    replace (List.length sel + 1)%nat with (List.length (sel ++ [32])) in D
      by (rewrite length_app; reflexivity).
    change (sel ++ 32 :: rest) with (sel ++ [32] ++ rest) in D.
    rewrite app_assoc, nth_error_after_prefix in D.
    destruct rest as [|d rest]; [discriminate|]. simpl in D.
    apply andb_true_iff in D. destruct D as [D1 D2].
    apply N.leb_le in D1. apply N.leb_le in D2.
    exists d, rest. split; [lia | reflexivity].
  - destruct H as [d [rest [Hd ->]]]. repeat split.
    + exists (d :: rest). now rewrite <- app_assoc.
    + apply Nat.ltb_lt. rewrite length_app. simpl. lia.
    + unfold charCodeAt.
      replace (List.length sel + 1)%nat with (List.length (sel ++ [32]))
        by (rewrite length_app; reflexivity).
      change (sel ++ 32 :: d :: rest) with (sel ++ [32] ++ d :: rest).
      rewrite app_assoc, nth_error_after_prefix. simpl.
      apply andb_true_iff. split; apply N.leb_le; lia.
Qed.

Section FilteredMode.

Variable toLowerCase : jsstring -> jsstring.

Variable CHANNELS : list (jsstring * Channel).

Hypothesis toLowerCase_ascii :
  forall s, Forall isAscii s -> toLowerCase s = map asciiLower s.

Lemma toLowerCase_ascii_bool :
  forall s, forallb (fun c => c <? 128) s = true -> toLowerCase s = map asciiLower s.
Proof.
  intros s H. apply toLowerCase_ascii. apply Forall_forall.
  intros c Hc. rewrite forallb_forall in H. apply N.ltb_lt. now apply H.
Qed.

Lemma isUncovered_iff :
  forall known name,
    isUncovered toLowerCase known name = true
    <-> ~ Covered known (toLowerCase name).
Proof.
  intros known name. unfold isUncovered, Covered.
  rewrite negb_true_iff, <- not_true_iff_false, existsb_exists.
  split; intros H [sel [Hin Hc]]; apply H; exists sel; (split; [exact Hin|]);
    now apply coveredBy_iff.
Qed.

(** C7. In filtered mode a discovered name is left out exactly when it is
    covered: lowercased and stripped of its trailing parenthetical it equals
    a known selector, or lowercased it is a known selector, one space and an
    ASCII digit; what is stripped is a trailing parenthetical.  With known
    selectors [["espn"]] and the names ESPN, ESPN 2, ESPN News and
    ESPN (West), only ESPN News is listed. *)
Theorem filteredChannels_coverage :
  forall options c suffix,
    presetSuffix options = Some (c :: suffix) ->
    let known :=
      knownSelectors toLowerCase CHANNELS (c :: suffix)
        (additionalKnownNames options) in
    (forall name,
       In name (filteredChannels toLowerCase CHANNELS options)
       <-> In name (availableChannels options)
           /\ ~ Covered known (toLowerCase name))
    /\ (forall name, exists tail,
          toLowerCase name = stripParenthetical (toLowerCase name) ++ tail
          /\ (tail = [] \/ isParenthetical tail))
    /\ (known = [js "espn"] ->
        availableChannels options = espnNames ->
        filteredChannels toLowerCase CHANNELS options = [js "ESPN News"]).
Proof.
  intros options c suffix Hs known. unfold filteredChannels. rewrite Hs.
  fold known. split; [|split].
  - intros name. rewrite filter_In, isUncovered_iff. reflexivity.
  - intros name. apply stripParenthetical_spec.
  - intros -> ->. unfold espnNames. cbn [filter]. unfold isUncovered.
    rewrite !toLowerCase_ascii_bool by reflexivity. reflexivity.
Qed.

End FilteredMode.

(** The theorem at the ASCII case mapping, on the ESPN example. *)
Lemma filteredChannels_coverage_witness :
  presetSuffix espnOptions = Some (js "-yttv")
  /\ knownSelectors asciiToLowerCase espnChannels (js "-yttv") None = [js "espn"]
  /\ filteredChannels asciiToLowerCase espnChannels espnOptions = [js "ESPN News"].
Proof.
  split; [reflexivity | split; [reflexivity|]].
  apply (@filteredChannels_coverage asciiToLowerCase espnChannels
           (fun s _ => eq_refl) espnOptions 45 (js "yttv") eq_refl);
    reflexivity.
Defined.

Section PresetsWithoutSelector.

Variable toLowerCase : jsstring -> jsstring.

Hypothesis toLowerCase_nil : toLowerCase [] = [].

Lemma presetSelectors_app :
  forall a b suffix,
    presetSelectors toLowerCase (a ++ b) suffix
    = presetSelectors toLowerCase a suffix ++ presetSelectors toLowerCase b suffix.
Proof.
  intros a b suffix. unfold presetSelectors.
  now rewrite filter_app, map_app, filter_app.
Qed.

Lemma presetSelectors_skip :
  forall key ch post suffix,
    hasNoSelector ch ->
    presetSelectors toLowerCase ((key, ch) :: post) suffix
    = presetSelectors toLowerCase post suffix.
Proof.
  intros key ch post suffix H. unfold presetSelectors. cbn [filter fst].
  destruct (endsWith key suffix); [|reflexivity].
  cbn [map snd]. destruct H as [-> | ->]; now rewrite toLowerCase_nil.
Qed.

(** C10. A preset whose channel selector is absent or empty adds nothing to
    the known selectors, so the listed names are the same with or without
    it; every known selector is a lowercased string, the verdict on a name
    depends on its lowercased copy only, and the listed names are names of
    the discovered list itself, in their order. *)
Theorem selectorless_preset_covers_nothing :
  (forall pre key ch post suffix,
     hasNoSelector ch ->
     presetSelectors toLowerCase (pre ++ (key, ch) :: post) suffix
     = presetSelectors toLowerCase (pre ++ post) suffix)
  /\ (forall pre key ch post options,
        hasNoSelector ch ->
        filteredChannels toLowerCase (pre ++ (key, ch) :: post) options
        = filteredChannels toLowerCase (pre ++ post) options)
  /\ (forall CHANNELS suffix additional sel,
        In sel (knownSelectors toLowerCase CHANNELS suffix additional) ->
        exists raw, sel = toLowerCase raw)
  /\ (forall known name1 name2,
        toLowerCase name1 = toLowerCase name2 ->
        isUncovered toLowerCase known name1 = isUncovered toLowerCase known name2)
  /\ (forall CHANNELS options,
        exists keep,
          filteredChannels toLowerCase CHANNELS options
          = filter keep (availableChannels options)).
Proof.
  assert (A : forall pre key ch post suffix,
             hasNoSelector ch ->
             presetSelectors toLowerCase (pre ++ (key, ch) :: post) suffix
             = presetSelectors toLowerCase (pre ++ post) suffix).
  { intros pre key ch post suffix H.
    now rewrite !presetSelectors_app, presetSelectors_skip. }
  split; [exact A | split; [|split; [|split]]].
  - intros pre key ch post options H. unfold filteredChannels, knownSelectors.
    destruct (presetSuffix options) as [[|c suffix]|]; try reflexivity.
    now rewrite A.
  - intros CHANNELS suffix additional sel H.
    assert (P : forall s, In s (presetSelectors toLowerCase CHANNELS suffix) ->
                          exists raw, s = toLowerCase raw).
    { intros s Hs. unfold presetSelectors in Hs.
      apply filter_In in Hs. destruct Hs as [Hs _].
      apply in_map_iff in Hs. destruct Hs as [entry [<- _]]. eauto. }
    unfold knownSelectors in H. destruct additional as [names|]; [|now apply P].
    apply in_app_or in H. destruct H as [H|H]; [now apply P|].
    apply in_map_iff in H. destruct H as [raw [<- _]]. eauto.
  - intros known name1 name2 H. unfold isUncovered. now rewrite H.
  - intros CHANNELS options. unfold filteredChannels.
    destruct (presetSuffix options) as [[|c suffix]|]; eauto;
      exists (fun _ => true); symmetry; apply forallb_filter_id;
      now apply forallb_forall.
Qed.

End PresetsWithoutSelector.

(** The theorem at the ASCII case mapping: the selectorless preset
    [local-yttv] of the ESPN table changes nothing. *)
Lemma selectorless_preset_covers_nothing_witness :
  filteredChannels asciiToLowerCase espnChannels espnOptions
  = filteredChannels asciiToLowerCase (removelast espnChannels) espnOptions.
Proof.
  pose proof (@selectorless_preset_covers_nothing asciiToLowerCase eq_refl) as H.
  destruct H as [_ [H _]].
  exact (H (removelast espnChannels) (js "local-yttv")
           {| channelSelector_of := None |} [] espnOptions (or_introl eq_refl)).
Defined.

(** ** selectChannel *)

Section SelectChannelProperties.

Context {World : Type}.

Variable browser : Browser World.

Variable env : Environment World.

Lemma pollSlugImage_effect :
  forall profile rt,
    fst (pollSlugImage browser env profile rt) = Normal tt
    /\ logs (snd (pollSlugImage browser env profile rt)) = logs rt
    /\ trace (snd (pollSlugImage browser env profile rt))
       = trace rt ++ pollOps env profile.
Proof.
  intros profile rt. unfold pollSlugImage, pollOps.
  destruct (skipsImagePolling (strategy (selection profile))).
  - cbn. now rewrite app_nil_r.
  - unfold tryCatch, page_waitForFunction.
    destruct (waitForFunction browser _ _ (world rt)) as [[|] w]; cbn; auto.
Qed.

Lemma selectChannel_dispatches :
  forall profile slug rt,
    streq (strategy (channelSelection profile)) (js "none") = false ->
    channelSelector profile = Some slug ->
    selectChannel browser env profile rt
    = dispatch browser env
        {| selection := channelSelection profile; selector := slug |}
        (snd (pollSlugImage browser env
                {| selection := channelSelection profile; selector := slug |} rt)).
Proof.
  intros profile slug rt Hn Hs. unfold selectChannel, isChannelSelectionProfile.
  rewrite Hn, Hs. unfold bind.
  pose proof (pollSlugImage_effect
                {| selection := channelSelection profile; selector := slug |} rt)
    as [H _].
  destruct (pollSlugImage browser env _ rt) as [c rt1].
  cbn in H. now subst c.
Qed.

Lemma skipsImagePolling_iff :
  forall name, skipsImagePolling name = true <-> In name skipImagePolling.
Proof.
  intros name. unfold skipsImagePolling. rewrite existsb_exists. split.
  - intros [s [Hin Heq]]. apply streq_true_iff in Heq. now subst.
  - intros H. exists name. split; [exact H | apply streq_refl].
Qed.

Lemma skipped_names_are_registered :
  forall name,
    skipsImagePolling name = true ->
    isSome (ownProperty (strategies browser env) name) = true.
Proof.
  intros name H. apply skipsImagePolling_iff in H.
  repeat (destruct H as [<- | H]; [reflexivity|]). destruct H.
Qed.

End SelectChannelProperties.

(** C5. With strategy ["none"], or without a channel selector, the call
    returns success and leaves the world, the log and the trace of page
    operations as they were. *)
Theorem selectChannel_noop :
  forall World (browser : Browser World) (env : Environment World)
         (profile : ResolvedSiteProfile) (rt : Runtime World),
    strategy (channelSelection profile) = js "none"
    \/ channelSelector profile = None ->
    selectChannel browser env profile rt = (Normal succeeded, rt).
Proof.
  intros World browser env profile rt H. unfold selectChannel.
  destruct (streq (strategy (channelSelection profile)) (js "none")) eqn:E;
    [reflexivity|].
  destruct H as [H|H].
  - rewrite H, streq_refl in E. discriminate.
  - unfold isChannelSelectionProfile. now rewrite H.
Qed.

Lemma selectChannel_noop_witness :
  selectChannel (mockBrowser emptyPage) mockEnv
    (profileOf (js "none") (Some (js "espn")) None) (startOf freshWorld)
  = (Normal succeeded, startOf freshWorld)
  /\ selectChannel (mockBrowser emptyPage) mockEnv
       (profileOf (js "tileClick") None None) (startOf freshWorld)
     = (Normal succeeded, startOf freshWorld).
Proof.
  split.
  - apply selectChannel_noop. left. reflexivity.
  - apply selectChannel_noop. right. reflexivity.
Defined.

(** C6 as the code has it. When the lookup [strategies[identifier]] finds
    nothing, neither a registry entry nor a member inherited from
    [Object.prototype], the call logs one warning that names the identifier
    and returns the failure ["Unknown channel selection strategy."]; the
    page has seen the image poll and nothing else, so no strategy ran. *)
Theorem selectChannel_unknown_strategy :
  forall World (browser : Browser World) (env : Environment World)
         (profile : ResolvedSiteProfile) (slug : jsstring) (rt : Runtime World),
    streq (strategy (channelSelection profile)) (js "none") = false ->
    channelSelector profile = Some slug ->
    strategies_get browser env (strategy (channelSelection profile)) = None ->
    let final := selectChannel browser env profile rt in
    fst final = Normal (failed (js "Unknown channel selection strategy."))
    /\ logs (snd final)
       = logs rt
         ++ [LogWarn (js "Unknown channel selection strategy: %s.")
               [ArgString (strategy (channelSelection profile))]]
    /\ trace (snd final)
       = trace rt
         ++ [OpWaitForFunction slug (channelSelectorDelay (CONFIG env))]
    /\ world (snd final)
       = world (snd (pollSlugImage browser env (narrow profile slug) rt)).
Proof.
  intros World browser env profile slug rt Hn Hs Hu final. subst final.
  rewrite (selectChannel_dispatches browser env profile rt Hn Hs).
  fold (narrow profile slug).
  pose proof (pollSlugImage_effect browser env (narrow profile slug) rt)
    as [_ [Hl Ht]].
  assert (Hk : skipsImagePolling (strategy (channelSelection profile)) = false).
  { destruct (skipsImagePolling (strategy (channelSelection profile))) eqn:K;
      [|reflexivity].
    apply (skipped_names_are_registered browser env) in K.
    unfold strategies_get in Hu.
    destruct (ownProperty (strategies browser env)
                (strategy (channelSelection profile))); discriminate. }
  unfold pollOps in Ht. cbn [narrow selection selector] in Ht. rewrite Hk in Ht.
  unfold dispatch. cbn [narrow selection]. rewrite Hu.
  cbn [bind LOG ret fst snd logs trace world]. rewrite Hl, Ht.
  repeat split; reflexivity.
Qed.

Lemma selectChannel_unknown_strategy_witness :
  fst (selectChannel (mockBrowser emptyPage) mockEnv
         (profileOf (js "bogusGrid") (Some (js "espn")) None)
         (startOf freshWorld))
  = Normal (failed (js "Unknown channel selection strategy."))
  /\ logs (snd (selectChannel (mockBrowser emptyPage) mockEnv
                  (profileOf (js "bogusGrid") (Some (js "espn")) None)
                  (startOf freshWorld)))
     = [LogWarn (js "Unknown channel selection strategy: %s.")
          [ArgString (js "bogusGrid")]].
Proof.
  pose proof (@selectChannel_unknown_strategy MockWorld (mockBrowser emptyPage)
                mockEnv (profileOf (js "bogusGrid") (Some (js "espn")) None)
                (js "espn") (startOf freshWorld) eq_refl eq_refl eq_refl)
    as [H1 [H2 _]].
  split; [exact H1 | exact H2].
Defined.

(** C6 as stated fails twice.  The reason of the failure does not contain
    the phrase "unknown strategy", in any letter case.  And [valueOf] is no
    entry of the registry, yet the lookup finds the member inherited from
    [Object.prototype]: no warning is logged, the member is called, and the
    call throws instead of returning a failure. *)
Lemma unknown_strategy_is_not_every_absent_name :
  (fst (selectChannel (mockBrowser emptyPage) mockEnv
          (profileOf (js "bogusGrid") (Some (js "espn")) None)
          (startOf freshWorld))
   = Normal (failed (js "Unknown channel selection strategy."))
   /\ includes (asciiToLowerCase (js "Unknown channel selection strategy."))
        (js "unknown strategy") = false)
  /\ (ownProperty (strategies (mockBrowser emptyPage) mockEnv) (js "valueOf")
      = None
      /\ logs (snd (selectChannel (mockBrowser emptyPage) mockEnv
                      (profileOf (js "valueOf") (Some (js "espn")) None)
                      (startOf freshWorld)))
         = []
      /\ fst (selectChannel (mockBrowser emptyPage) mockEnv
                (profileOf (js "valueOf") (Some (js "espn")) None)
                (startOf freshWorld))
         = Throw (TypeError (js "Cannot convert undefined or null to object"))).
Proof. repeat split. Qed.

(** C1. The registry holds the entry object of tileClick.ts under
    ["tileClick"], and the coordinator calls what it looks up as a function:
    whatever the page, a profile with that strategy and a channel selector
    makes the call throw a [TypeError] instead of returning a result. *)
Theorem selectChannel_tileClick_throws :
  forall World (browser : Browser World) (env : Environment World)
         (slug : jsstring) (play : option jsstring) (rt : Runtime World),
    fst (selectChannel browser env
           (profileOf (js "tileClick") (Some slug) play) rt)
    = Throw (TypeError (js "strategyFn is not a function")).
Proof.
  intros World browser env slug play rt.
  rewrite (@selectChannel_dispatches World browser env
             (profileOf (js "tileClick") (Some slug) play) slug rt
             eq_refl eq_refl).
  unfold dispatch. cbn [selection strategy profileOf channelSelection].
  reflexivity.
Qed.






(** ** tileClick: Locate *)

Section LocateTiers.

Context {World : Type}.

Variable browser : Browser World.

Lemma last_cons_default :
  forall (l : list World) (x d : World), last (x :: l) d = last l x.
Proof.
  induction l as [|y l IH]; intros x d; [reflexivity|].
  change (last (x :: y :: l) d) with (last (y :: l) d).
  rewrite IH. symmetry. apply IH.
Qed.

Lemma lastWorld_cons :
  forall (a : HTMLElement) (w1 : World) vs w,
    lastWorld ((a, w1) :: vs) w = lastWorld vs w1.
Proof.
  intros a w1 vs w. unfold lastWorld. cbn [map snd]. apply last_cons_default.
Qed.

Lemma walkAncestors_visits :
  forall chain fallback w,
    walkAncestors browser chain fallback w
    = match find (semanticHit browser) (visits browser (atBody browser) chain w) with
      | Some (a, w1) =>
          (SemanticTarget (centerOf (getBoundingClientRect browser (node a) w1)), w1)
      | None =>
          (WalkedOut
             match fallback with
             | Some f => Some f
             | None => option_map fst (find (pointerHit browser) (visits browser (atBody browser) chain w))
             end,
           lastWorld (visits browser (atBody browser) chain w) w)
      end.
Proof.
  induction chain as [|a parents IH]; intros fallback w.
  - cbn. now destruct fallback.
  - cbn [walkAncestors visits].
    change (node a =? document_body browser w)%nat with (atBody browser a w).
    destruct (atBody browser a w).
    + cbn. now destruct fallback.
    + cbn [find]. unfold semanticHit at 1. cbn [fst snd].
      destruct (isSemanticClickable a) eqn:S; cbn [andb].
      * destruct (hasArea (getBoundingClientRect browser (node a)
                             (scrollIntoView browser (node a) w))) eqn:A.
        { reflexivity. }
        rewrite IH, lastWorld_cons. unfold pointerHit at 2. cbn [fst snd].
        destruct (find (semanticHit browser) _) as [[b w1]|]; [reflexivity|].
        destruct fallback as [f|]; [reflexivity|].
        now destruct (isPointerCandidate browser a _).
      * rewrite IH, lastWorld_cons. unfold pointerHit at 2. cbn [fst snd].
        destruct (find (semanticHit browser) _) as [[b w1]|]; [reflexivity|].
        destruct fallback as [f|]; [reflexivity|].
        now destruct (isPointerCandidate browser a _).
Qed.

Lemma tileOfImage_tiers :
  forall slug img w,
    tileOfImage browser slug img w = tileOfImageTiers browser slug img w.
Proof.
  intros slug img w. unfold tileOfImage, tileOfImageTiers, matchesSlug.
  destruct (includes (src img) slug); [|reflexivity]. cbn [andb].
  destruct (hasArea _); [|reflexivity].
  rewrite walkAncestors_visits. unfold tiers.
  destruct (find (semanticHit browser) _) as [[a w1]|]; [reflexivity|].
  destruct (find (pointerHit browser) _) as [[a w1]|]; reflexivity.
Qed.

Lemma findTileIn_some :
  forall slug images w t w',
    findTileIn browser slug images w = (Some t, w') ->
    exists before img after w0,
      images = before ++ img :: after
      /\ findTileIn browser slug before w = (None, w0)
      /\ tileOfImage browser slug img w0 = (Some t, w').
Proof.
  induction images as [|img rest IH]; intros w t w' H; [discriminate|].
  cbn [findTileIn] in H.
  destruct (tileOfImage browser slug img w) as [[t1|] w1] eqn:E.
  - injection H as -> ->. exists [], img, rest, w. auto.
  - apply IH in H. destruct H as [before [img' [after [w0 [-> [Hb Hi]]]]]].
    exists (img :: before), img', after, w0. repeat split; [|exact Hi].
    cbn [findTileIn]. now rewrite E.
Qed.

Lemma findTileIn_first :
  forall slug before img after w w0 t w',
    findTileIn browser slug before w = (None, w0) ->
    tileOfImage browser slug img w0 = (Some t, w') ->
    findTileIn browser slug (before ++ img :: after) w = (Some t, w').
Proof.
  induction before as [|b before IH]; intros img after w w0 t w' Hb Hi.
  - injection Hb as <-. cbn [app findTileIn]. now rewrite Hi.
  - cbn [app findTileIn] in *.
    destruct (tileOfImage browser slug b w) as [[t1|] w1]; [discriminate|].
    now apply IH with (w0 := w0).
Qed.

End LocateTiers.

(** C9 as the code has it. Each image yields its target by the two tiers
    over its ancestors below [document.body]; Locate returns the target of
    the first image, in document order, that yields one; and when no image
    yields one the strategy fails with
    ["Channel tile not found in page images."]. *)
Theorem findTile_by_tiers :
  forall World (browser : Browser World) (slug : jsstring) (w : World),
    (forall img w0,
       tileOfImage browser slug img w0 = tileOfImageTiers browser slug img w0)
    /\ (forall t w',
          findTile browser slug w = (Some t, w')
          <-> exists before img after w0,
                querySelectorAll_img browser w = before ++ img :: after
                /\ findTileIn browser slug before w = (None, w0)
                /\ tileOfImageTiers browser slug img w0 = (Some t, w'))
    /\ (forall CONFIG profile rt,
          selector profile = slug ->
          world rt = w ->
          fst (findTile browser slug w) = None ->
          fst (tileClickStrategyFn browser CONFIG profile rt)
          = Normal (failed (js "Channel tile not found in page images."))).
Proof.
  intros World browser slug w. split; [|split].
  - intros img w0. apply tileOfImage_tiers.
  - intros t w'. unfold findTile. split.
    + intros H. apply findTileIn_some in H.
      destruct H as [before [img [after [w0 [H1 [H2 H3]]]]]].
      exists before, img, after, w0. rewrite <- tileOfImage_tiers. auto.
    + intros [before [img [after [w0 [H1 [H2 H3]]]]]].
      rewrite H1. rewrite <- tileOfImage_tiers in H3.
      now apply findTileIn_first with (w0 := w0).
  - intros CONFIG profile rt Hs Hw Hn.
    unfold tileClickStrategyFn, bind, evaluateWithAbort.
    rewrite Hs, Hw. destruct (findTile browser slug w) as [o w1].
    cbn in Hn. subst o. reflexivity.
Qed.

(** C9 as stated fails twice.  On the page with two tiles the first matching
    image yields no target, yet Locate returns the anchor of the second and
    the strategy succeeds; on the page whose [body] has an [onclick]
    attribute the walk never inspects [body], and Locate fails. *)
Lemma locate_is_not_first_image_to_root :
  (locateAsClaimed (mockBrowser twoTilePage) (js "espn") freshWorld = None
   /\ fst (findTile (mockBrowser twoTilePage) (js "espn") freshWorld)
      = Some (centerOf (square 100))
   /\ fst (tileClickStrategyFn (mockBrowser twoTilePage) mockConfig
             (tileProfile None) (startOf freshWorld))
      = Normal succeeded)
  /\ (locateAsClaimed (mockBrowser bodyOnclickPage) (js "espn") freshWorld
      = Some (centerOf (square 100))
      /\ fst (findTile (mockBrowser bodyOnclickPage) (js "espn") freshWorld)
         = None).
Proof. repeat split. Qed.

(** ** tileClick: Confirm *)

Ltac run_async :=
  unfold evaluateWithAbort, scrollAndClick, page_waitForSelector,
    page_mouse_click, utils_delay, LOG;
  unfold tryCatch, bind, ret;
  unfold record, setWorld;
  cbn [world logs trace fst snd].

Ltac flatten_trace :=
  cbn [world logs trace fst snd]; repeat rewrite <- app_assoc; cbn [app].

Section ConfirmPhase.

Context {World : Type}.

Variable browser : Browser World.

Variable sel : jsstring.

Lemma attempt_vanished :
  forall r rt w1,
    readPlayTarget browser sel (world rt) = (None, w1) ->
    clickPlayButton browser sel (S r) rt
    = if (0 <? MAX_PLAY_CLICK_ATTEMPTS - S r)%nat
      then (Normal succeeded,
            {| world := w1;
               logs := logs rt
                       ++ [LogDebug (js "tuning:tileClick") disappearedFormat
                             [ArgNumber (MAX_PLAY_CLICK_ATTEMPTS - S r + 1)]];
               trace := trace rt ++ [OpEvaluate (ReadPlayTarget sel)] |})
      else (Normal (failed (js "Play button found but has no dimensions.")),
            {| world := w1;
               logs := logs rt;
               trace := trace rt ++ [OpEvaluate (ReadPlayTarget sel)] |}).
Proof.
  intros r rt w1 H. cbn [clickPlayButton]. run_async. rewrite H.
  now destruct (0 <? MAX_PLAY_CLICK_ATTEMPTS - S r)%nat.
Qed.

Lemma attempt_dismissed :
  forall r rt t w1 w3,
    readPlayTarget browser sel (world rt) = (Some t, w1) ->
    waitForSelector browser sel true PLAY_CLICK_VERIFY_TIMEOUT (clickedAt browser t w1)
    = (true, w3) ->
    clickPlayButton browser sel (S r) rt
    = (Normal succeeded,
       {| world := w3; logs := logs rt; trace := trace rt ++ attemptOps sel t |}).
Proof.
  intros r rt t w1 w3 H V. unfold clickedAt in V.
  cbn [clickPlayButton]. run_async. rewrite H. cbn [world]. rewrite V.
  unfold attemptOps. flatten_trace. reflexivity.
Qed.

Lemma attempt_missed :
  forall r rt t w1 w3,
    readPlayTarget browser sel (world rt) = (Some t, w1) ->
    waitForSelector browser sel true PLAY_CLICK_VERIFY_TIMEOUT (clickedAt browser t w1)
    = (false, w3) ->
    clickPlayButton browser sel (S r) rt
    = clickPlayButton browser sel r
        {| world := w3;
           logs := logs rt ++ retryLog (MAX_PLAY_CLICK_ATTEMPTS - S r);
           trace := trace rt ++ attemptOps sel t |}.
Proof.
  intros r rt t w1 w3 H V. unfold clickedAt in V.
  cbn [clickPlayButton]. run_async. rewrite H. cbn [world]. rewrite V.
  unfold attemptOps, retryLog.
  destruct (MAX_PLAY_CLICK_ATTEMPTS - S r <? MAX_PLAY_CLICK_ATTEMPTS - 1)%nat;
    cbn [world logs trace]; flatten_trace; [reflexivity|].
  now rewrite app_nil_r.
Qed.

Lemma playReads_app :
  forall a b, playReads (a ++ b) = (playReads a + playReads b)%nat.
Proof. intros a b. unfold playReads. now rewrite filter_app, length_app. Qed.

Lemma verifications_app :
  forall a b, verifications (a ++ b) = (verifications a + verifications b)%nat.
Proof. intros a b. unfold verifications. now rewrite filter_app, length_app. Qed.

Lemma attemptOps_counts :
  forall t,
    playReads (attemptOps sel t) = 1%nat
    /\ verifications (attemptOps sel t) = 1%nat.
Proof. intros t. split; reflexivity. Qed.

(** Whatever the page does, a loop with [r] iterations left reads the
    button at most [r] times and verifies at most [r] clicks. *)
Lemma clickPlayButton_bounded :
  forall r rt,
    (playReads (trace (snd (clickPlayButton browser sel r rt)))
     <= playReads (trace rt) + r)%nat
    /\ (verifications (trace (snd (clickPlayButton browser sel r rt)))
        <= verifications (trace rt) + r)%nat.
Proof.
  induction r as [|r IH]; intros rt.
  - cbn. split; lia.
  - destruct (readPlayTarget browser sel (world rt)) as [[t|] w1] eqn:H.
    + destruct (waitForSelector browser sel true PLAY_CLICK_VERIFY_TIMEOUT
                  (clickedAt browser t w1)) as [[|] w3] eqn:V.
      * rewrite (attempt_dismissed r rt H V). cbn [snd trace].
        rewrite playReads_app, verifications_app. cbn. clear IH. split; lia.
      * rewrite (attempt_missed r rt H V).
        match goal with |- context [clickPlayButton browser sel r ?s] =>
          destruct (IH s) as [I1 I2]; cbn [trace] in I1, I2 end.
        rewrite playReads_app in I1. rewrite verifications_app in I2.
        destruct (attemptOps_counts t) as [C1 C2].
        rewrite C1 in I1. rewrite C2 in I2. clear IH. split; lia.
    + rewrite (attempt_vanished r rt H).
      destruct (0 <? MAX_PLAY_CLICK_ATTEMPTS - S r)%nat; cbn [snd trace];
        rewrite playReads_app, verifications_app; cbn; clear IH; split; lia.
Qed.

End ConfirmPhase.

Section TileClickConfirm.

Context {World : Type}.

Variable browser : Browser World.

Variable config : Config.

Lemma tileClick_reaches_confirm :
  forall profile sel rt tile w0 w1,
    playSelector (selection profile) = Some sel ->
    sel <> [] ->
    findTile browser (selector profile) (world rt) = (Some tile, w0) ->
    waitForSelector browser sel false (videoTimeout config)
      (clickedAt browser tile w0) = (true, w1) ->
    tileClickStrategyFn browser config profile rt
    = clickPlayButton browser sel MAX_PLAY_CLICK_ATTEMPTS
        (confirmStart config rt (selector profile) sel tile w1).
Proof.
  intros profile sel rt tile w0 w1 Hp Hs Ht Ha. unfold clickedAt in Ha.
  unfold tileClickStrategyFn. rewrite Hp.
  destruct sel as [|c s]; [congruence|].
  run_async. rewrite Ht. cbn [world]. rewrite Ha.
  unfold confirmStart, locateOps. flatten_trace. reflexivity.
Qed.

Lemma tileClick_attempts_bounded :
  forall profile rt,
    (playReads (trace (snd (tileClickStrategyFn browser config profile rt)))
     <= playReads (trace rt) + MAX_PLAY_CLICK_ATTEMPTS)%nat
    /\ (verifications
          (trace (snd (tileClickStrategyFn browser config profile rt)))
        <= verifications (trace rt) + MAX_PLAY_CLICK_ATTEMPTS)%nat.
Proof.
  intros profile rt.
  destruct (findTile browser (selector profile) (world rt)) as [[tile|] w0] eqn:Ht.
  - destruct (playSelector (selection profile)) as [[|c s]|] eqn:Hp.
    + unfold tileClickStrategyFn. rewrite Hp. run_async. rewrite Ht.
      flatten_trace. rewrite playReads_app, verifications_app. cbn. split; lia.
    + destruct (waitForSelector browser (c :: s) false (videoTimeout config)
                  (clickedAt browser tile w0)) as [[|] w1] eqn:Ha.
      * rewrite (@tileClick_reaches_confirm profile (c :: s) rt tile w0 w1)
          by (auto; discriminate).
        match goal with |- context [clickPlayButton browser ?l ?r ?s] =>
          destruct (clickPlayButton_bounded browser l r s) as [I1 I2] end.
        unfold confirmStart in *. cbn [trace] in I1, I2.
        rewrite playReads_app in I1. rewrite verifications_app in I2.
        change (playReads (locateOps (selector profile) (c :: s) tile
                             (videoTimeout config))) with 0%nat in I1.
        change (verifications (locateOps (selector profile) (c :: s) tile
                                 (videoTimeout config))) with 0%nat in I2.
        split; lia.
      * unfold clickedAt in Ha.
        unfold tileClickStrategyFn. rewrite Hp. run_async. rewrite Ht.
        cbn [world]. rewrite Ha.
        flatten_trace. rewrite playReads_app, verifications_app. cbn. split; lia.
    + unfold tileClickStrategyFn. rewrite Hp. run_async. rewrite Ht.
      flatten_trace. rewrite playReads_app, verifications_app. cbn. split; lia.
  - unfold tileClickStrategyFn. run_async. rewrite Ht.
    flatten_trace. rewrite playReads_app, verifications_app. cbn. split; lia.
Qed.

End TileClickConfirm.

(** C3. No run reads the play button, or verifies a click on it, more than
    3 times.  When the tile is found and the button appears, and every
    attempt of the run starts in a state ([Stuck]) where the read yields
    coordinates and the click is not seen to remove the button, the call
    makes exactly 3 attempts and fails with a reason that carries the
    count. *)
Theorem confirm_gives_up_after_three_attempts :
  forall World (browser : Browser World) (config : Config)
         (profile : ChannelSelectionProfile) (sel : jsstring)
         (rt : Runtime World) (tile : ClickTarget) (w0 w1 : World)
         (Stuck : World -> Prop),
    playSelector (selection profile) = Some sel ->
    sel <> [] ->
    findTile browser (selector profile) (world rt) = (Some tile, w0) ->
    waitForSelector browser sel false (videoTimeout config)
      (clickedAt browser tile w0) = (true, w1) ->
    Stuck w1 ->
    (forall w,
       Stuck w ->
       exists t w2 w3,
         readPlayTarget browser sel w = (Some t, w2)
         /\ waitForSelector browser sel true PLAY_CLICK_VERIFY_TIMEOUT
              (clickedAt browser t w2) = (false, w3)
         /\ Stuck w3) ->
    let final := tileClickStrategyFn browser config profile rt in
    fst final
    = Normal (failed
                (js "Play button click did not dismiss the modal after 3 attempts."))
    /\ (exists t1 t2 t3,
          trace (snd final)
          = trace rt
            ++ locateOps (selector profile) sel tile (videoTimeout config)
            ++ attemptOps sel t1 ++ attemptOps sel t2 ++ attemptOps sel t3)
    /\ playReads (trace (snd final)) = (playReads (trace rt) + 3)%nat
    /\ verifications (trace (snd final)) = (verifications (trace rt) + 3)%nat
    /\ logs (snd final)
       = logs rt
         ++ [ LogInfo retryFormat [ArgNumber 1; ArgNumber 3];
              LogInfo retryFormat [ArgNumber 2; ArgNumber 3] ]
    /\ (forall profile' rt',
          (playReads
             (trace (snd (tileClickStrategyFn browser config profile' rt')))
           <= playReads (trace rt') + 3)%nat
          /\ (verifications
                (trace (snd (tileClickStrategyFn browser config profile' rt')))
              <= verifications (trace rt') + 3)%nat).
Proof.
  intros World browser config profile sel rt tile w0 w1 Stuck Hp Hs Ht Ha
         Hstart Hstuck final.
  assert (Step : forall r s,
            Stuck (world s) ->
            exists t w3,
              Stuck w3
              /\ clickPlayButton browser sel (S r) s
                 = clickPlayButton browser sel r
                     {| world := w3;
                        logs := logs s ++ retryLog (MAX_PLAY_CLICK_ATTEMPTS - S r);
                        trace := trace s ++ attemptOps sel t |}).
  { intros r s Hw. destruct (Hstuck (world s) Hw) as [t [w2 [w3 [H [V K]]]]].
    exists t, w3. split; [exact K|]. now apply attempt_missed with (w1 := w2). }
  subst final.
  rewrite (tileClick_reaches_confirm browser config profile rt Hp Hs Ht Ha).
  change MAX_PLAY_CLICK_ATTEMPTS with 3%nat.
  destruct (Step 2%nat (confirmStart config rt (selector profile) sel tile w1)
              Hstart) as [t1 [x1 [K1 ->]]].
  match goal with |- context [clickPlayButton browser sel 2 ?s] =>
    destruct (Step 1%nat s K1) as [t2 [x2 [K2 ->]]] end.
  match goal with |- context [clickPlayButton browser sel 1 ?s] =>
    destruct (Step 0%nat s K2) as [t3 [x3 [K3 ->]]] end.
  cbn [clickPlayButton ret fst snd world logs trace confirmStart].
  repeat split.
  - exists t1, t2, t3. now rewrite <- !app_assoc.
  - rewrite !playReads_app. cbn. lia.
  - rewrite !verifications_app. cbn. lia.
  - now rewrite <- !app_assoc.
  - apply (tileClick_attempts_bounded browser config profile' rt').
  - apply (tileClick_attempts_bounded browser config profile' rt').
Qed.

(** The theorem on the page whose play button never goes away. *)
Lemma confirm_gives_up_after_three_attempts_witness :
  fst (tileClickStrategyFn (mockBrowser stuckPage) mockConfig playProfile
         (startOf freshWorld))
  = Normal (failed
              (js "Play button click did not dismiss the modal after 3 attempts."))
  /\ verifications
       (trace (snd (tileClickStrategyFn (mockBrowser stuckPage) mockConfig
                      playProfile (startOf freshWorld))))
     = 3%nat.
Proof.
  pose proof (@confirm_gives_up_after_three_attempts MockWorld
                (mockBrowser stuckPage) mockConfig playProfile
                (js "button.watch-live") (startOf freshWorld)
                (centerOf (square 100)) freshWorld
                {| clicks := 1; ticks := 1 |}
                (fun _ => True)
                eq_refl
                (fun H => eq_ind (js "button.watch-live")
                            (fun l => match l with [] => False | _ => True end)
                            I [] H)
                eq_refl eq_refl I
                (fun w _ =>
                   ex_intro _ (centerOf (square 100))
                     (ex_intro _ w
                        (ex_intro _ (tick {| clicks := S (clicks w);
                                             ticks := ticks w |})
                           (conj eq_refl (conj eq_refl I))))))
    as [H1 [_ [_ [H2 _]]]].
  split; [exact H1 | exact H2].
Defined.

(** C4. Once the tile is found and the play button has appeared: if the
    first read of the button yields nothing the call fails with
    ["Play button found but has no dimensions."]; if the first click is not
    seen to dismiss the button and the second read yields nothing the call
    succeeds; and in general a read that yields nothing at an attempt of
    index above 0 ends the loop with success, at index 0 with that
    failure. *)
Theorem confirm_on_vanished_button :
  forall World (browser : Browser World) (config : Config)
         (profile : ChannelSelectionProfile) (sel : jsstring)
         (rt : Runtime World) (tile : ClickTarget) (w0 w1 : World),
    playSelector (selection profile) = Some sel ->
    sel <> [] ->
    findTile browser (selector profile) (world rt) = (Some tile, w0) ->
    waitForSelector browser sel false (videoTimeout config)
      (clickedAt browser tile w0) = (true, w1) ->
    let final := tileClickStrategyFn browser config profile rt in
    (forall w2,
       readPlayTarget browser sel w1 = (None, w2) ->
       fst final
       = Normal (failed (js "Play button found but has no dimensions.")))
    /\ (forall t w2 w3 w4,
          readPlayTarget browser sel w1 = (Some t, w2) ->
          waitForSelector browser sel true PLAY_CLICK_VERIFY_TIMEOUT
            (clickedAt browser t w2) = (false, w3) ->
          readPlayTarget browser sel w3 = (None, w4) ->
          fst final = Normal succeeded
          /\ logs (snd final)
             = logs rt
               ++ [ LogInfo retryFormat [ArgNumber 1; ArgNumber 3];
                    LogDebug (js "tuning:tileClick") disappearedFormat
                      [ArgNumber 2] ])
    /\ (forall remaining rt' w',
          readPlayTarget browser sel (world rt') = (None, w') ->
          remaining <> 0%nat ->
          let attempt := (MAX_PLAY_CLICK_ATTEMPTS - remaining)%nat in
          fst (clickPlayButton browser sel remaining rt')
          = if (0 <? attempt)%nat
            then Normal succeeded
            else Normal (failed (js "Play button found but has no dimensions."))).
Proof.
  intros World browser config profile sel rt tile w0 w1 Hp Hs Ht Ha final.
  subst final.
  rewrite (tileClick_reaches_confirm browser config profile rt Hp Hs Ht Ha).
  change MAX_PLAY_CLICK_ATTEMPTS with 3%nat.
  split; [|split].
  - intros w2 H.
    rewrite (@attempt_vanished World browser sel 2
               (confirmStart config rt (selector profile) sel tile w1) w2 H).
    reflexivity.
  - intros t w2 w3 w4 H V H'.
    rewrite (@attempt_missed World browser sel 2
               (confirmStart config rt (selector profile) sel tile w1)
               t w2 w3 H V).
    match goal with |- context [clickPlayButton browser sel 2 ?s] =>
      rewrite (@attempt_vanished World browser sel 1 s w4 H') end.
    cbn [fst snd logs confirmStart]. split; [reflexivity|].
    now rewrite <- app_assoc.
  - intros remaining rt' w' H Hr attempt. subst attempt.
    destruct remaining as [|r]; [congruence|].
    rewrite (attempt_vanished browser sel r rt' H).
    change MAX_PLAY_CLICK_ATTEMPTS with 3%nat.
    now destruct (0 <? 3 - S r)%nat.
Qed.

Lemma confirm_on_vanished_button_witness :
  fst (tileClickStrategyFn (mockBrowser flatButtonPage) mockConfig playProfile
         (startOf freshWorld))
  = Normal (failed (js "Play button found but has no dimensions."))
  /\ fst (tileClickStrategyFn (mockBrowser racePage) mockConfig playProfile
            (startOf freshWorld))
     = Normal succeeded.
Proof.
  split.
  - exact (proj1
      (@confirm_on_vanished_button MockWorld (mockBrowser flatButtonPage)
         mockConfig playProfile (js "button.watch-live") (startOf freshWorld)
         (centerOf (square 100)) freshWorld {| clicks := 1; ticks := 1 |}
         eq_refl
         (fun H => eq_ind (js "button.watch-live")
                     (fun l => match l with [] => False | _ => True end)
                     I [] H)
         eq_refl eq_refl)
      {| clicks := 1; ticks := 1 |} eq_refl).
  - exact (proj1 (proj1 (proj2
      (@confirm_on_vanished_button MockWorld (mockBrowser racePage)
         mockConfig playProfile (js "button.watch-live") (startOf freshWorld)
         (centerOf (square 100)) freshWorld {| clicks := 1; ticks := 1 |}
         eq_refl
         (fun H => eq_ind (js "button.watch-live")
                     (fun l => match l with [] => False | _ => True end)
                     I [] H)
         eq_refl eq_refl))
      (centerOf (square 100)) {| clicks := 1; ticks := 1 |}
      {| clicks := 2; ticks := 2 |} {| clicks := 2; ticks := 2 |}
      eq_refl eq_refl eq_refl)).
Defined.

(* ================================================================== *)
(** * Part IV. Further properties of the code                          *)
(* ================================================================== *)

(** ** logAvailableChannels: what is emitted *)

Lemma filter_length_le :
  forall (A : Type) (f : A -> bool) (l : list A),
    (List.length (filter f l) <= List.length l)%nat.
Proof.
  intros A f l. induction l as [|a l IH]; [apply Nat.le_refl|].
  cbn [filter]. destruct (f a); cbn [List.length]; lia.
Qed.

Lemma filteredChannels_length :
  forall toLowerCase CHANNELS options,
    (List.length (filteredChannels toLowerCase CHANNELS options)
     <= List.length (availableChannels options))%nat.
Proof.
  intros toLowerCase CHANNELS options. unfold filteredChannels.
  destruct (presetSuffix options) as [[|c suffix]|];
    try apply Nat.le_refl. apply filter_length_le.
Qed.

(** X1. The call logs nothing exactly when no name is left to list, in
    particular whenever the discovered list is empty, whatever the other
    options; otherwise it logs exactly one entry, a warning with the fixed
    format, whose arguments are the channel that failed, the provider, the
    guide URL, the count label and the names left, joined by a comma and a
    space.  It never lists more names than were discovered; without a
    preset suffix (absent or empty) it lists all of them and labels the
    list with their count; with one the label reads "uncovered (k of n)",
    [k] names left of [n] discovered. *)
Theorem logAvailableChannels_emission :
  forall toLowerCase CHANNELS options,
    (logAvailableChannels toLowerCase CHANNELS options = []
     <-> filteredChannels toLowerCase CHANNELS options = [])
    /\ (availableChannels options = [] ->
        logAvailableChannels toLowerCase CHANNELS options = [])
    /\ (List.length (logAvailableChannels toLowerCase CHANNELS options) <= 1)%nat
    /\ (List.length (filteredChannels toLowerCase CHANNELS options)
        <= List.length (availableChannels options))%nat
    /\ (isFiltered options = false ->
        filteredChannels toLowerCase CHANNELS options = availableChannels options
        /\ countLabel toLowerCase CHANNELS options
           = String_of_nat (List.length (availableChannels options)))
    /\ (filteredChannels toLowerCase CHANNELS options <> [] ->
        logAvailableChannels toLowerCase CHANNELS options
        = [LogWarn availableChannelsFormat
             [ArgString (channelName options);
              ArgString (providerName options);
              ArgString (guideUrl options);
              ArgString (countLabel toLowerCase CHANNELS options);
              ArgString (join (js ", ")
                           (filteredChannels toLowerCase CHANNELS options))]])
    /\ (isFiltered options = true ->
        countLabel toLowerCase CHANNELS options
        = js "uncovered ("
          ++ String_of_nat
               (List.length (filteredChannels toLowerCase CHANNELS options))
          ++ js " of "
          ++ String_of_nat (List.length (availableChannels options))
          ++ js ")").
Proof.
  intros toLowerCase CHANNELS options.
  pose proof (filteredChannels_length toLowerCase CHANNELS options) as L.
  unfold logAvailableChannels.
  split; [|split; [|split; [|split; [|split; [|split]]]]].
  - destruct (availableChannels options) as [|a l] eqn:A.
    + split; [intros _|reflexivity].
      destruct (filteredChannels toLowerCase CHANNELS options); [reflexivity|].
      cbn in L. lia.
    + destruct (filteredChannels toLowerCase CHANNELS options);
        split; intros H; try reflexivity; discriminate.
  - intros ->. reflexivity.
  - destruct (availableChannels options); [cbn; lia|].
    destruct (filteredChannels toLowerCase CHANNELS options); cbn; lia.
  - exact L.
  - unfold isFiltered, countLabel, filteredChannels.
    destruct (presetSuffix options) as [[|c suffix]|]; try discriminate;
      intros _; split; reflexivity.
  - intros Hne.
    destruct (availableChannels options) as [|a l] eqn:A.
    + destruct (filteredChannels toLowerCase CHANNELS options);
        [congruence | cbn in L; lia].
    + destruct (filteredChannels toLowerCase CHANNELS options);
        [congruence | reflexivity].
  - unfold isFiltered, countLabel.
    destruct (presetSuffix options) as [[|c suffix]|]; try discriminate.
    reflexivity.
Qed.

(** ** logAvailableChannels: the known selectors as a set *)

Lemma Covered_app :
  forall a b lower,
    Covered (a ++ b) lower <-> Covered a lower \/ Covered b lower.
Proof.
  intros a b lower. unfold Covered. split.
  - intros [sel [Hin H]]. apply in_app_or in Hin.
    destruct Hin as [Hin|Hin]; [left | right]; exists sel; auto.
  - intros [[sel [Hin H]]|[sel [Hin H]]]; exists sel; split; auto;
      apply in_or_app; auto.
Qed.

Lemma Covered_same_members :
  forall a b lower,
    (forall sel, In sel a <-> In sel b) ->
    Covered a lower <-> Covered b lower.
Proof.
  intros a b lower H. unfold Covered.
  split; intros [sel [Hin C]]; exists sel; (split; [now apply H | exact C]).
Qed.

Lemma isUncovered_same_members :
  forall toLowerCase a b name,
    (forall sel, In sel a <-> In sel b) ->
    isUncovered toLowerCase a name = isUncovered toLowerCase b name.
Proof.
  intros toLowerCase a b name H.
  pose proof (isUncovered_iff toLowerCase a name) as A.
  pose proof (isUncovered_iff toLowerCase b name) as B.
  pose proof (@Covered_same_members a b (toLowerCase name) H) as C.
  destruct (isUncovered toLowerCase a name), (isUncovered toLowerCase b name);
    try reflexivity.
  - exfalso. assert (T : true = true) by reflexivity.
    apply A in T. rewrite C in T. apply B in T. discriminate.
  - exfalso. assert (T : true = true) by reflexivity.
    apply B in T. rewrite <- C in T. apply A in T. discriminate.
Qed.

(** X2. In filtered mode the additional known names take out of the list
    exactly the names they cover: a name is listed with them if and only if
    it is listed without them and is covered by none of them, lowercased. *)
Theorem additional_names_remove_what_they_cover :
  forall toLowerCase CHANNELS options names,
    isFiltered options = true ->
    forall name,
      In name (filteredChannels toLowerCase CHANNELS
                 (withAdditional options (Some names)))
      <-> In name (filteredChannels toLowerCase CHANNELS
                     (withAdditional options None))
          /\ ~ Covered (map toLowerCase names) (toLowerCase name).
Proof.
  intros toLowerCase CHANNELS options names Hf name.
  unfold isFiltered in Hf. unfold filteredChannels, withAdditional.
  cbn [presetSuffix additionalKnownNames availableChannels].
  destruct (presetSuffix options) as [[|c suffix]|]; try discriminate.
  unfold knownSelectors. rewrite !filter_In, !isUncovered_iff, Covered_app.
  tauto.
Qed.

Lemma additional_names_remove_what_they_cover_witness :
  filteredChannels asciiToLowerCase espnChannels
    (withAdditional espnOptions None) = [js "ESPN News"]
  /\ ~ In (js "ESPN News")
         (filteredChannels asciiToLowerCase espnChannels
            (withAdditional espnOptions (Some [js "espn NEWS"]))).
Proof.
  split; [reflexivity|].
  intros H.
  apply (@additional_names_remove_what_they_cover asciiToLowerCase espnChannels
           espnOptions [js "espn NEWS"] eq_refl (js "ESPN News")) in H.
  destruct H as [_ H]. apply H.
  exists (js "espn news"). split; [now left | now left].
Defined.

Lemma presetSelectors_members :
  forall toLowerCase CHANNELS suffix sel,
    In sel (presetSelectors toLowerCase CHANNELS suffix)
    <-> sel <> []
        /\ exists entry,
             In entry CHANNELS
             /\ endsWith (fst entry) suffix = true
             /\ sel = toLowerCase
                        (match channelSelector_of (snd entry) with
                         | Some s => s
                         | None => []
                         end).
Proof.
  intros toLowerCase CHANNELS suffix sel. unfold presetSelectors.
  rewrite filter_In, in_map_iff. split.
  - intros [[entry [E Hin]] L]. apply filter_In in Hin. destruct Hin as [Hin Hs].
    split.
    + destruct sel; [discriminate | discriminate].
    + exists entry. auto.
  - intros [Hne [entry [Hin [Hs E]]]]. split.
    + exists entry. split; [now symmetry|]. apply filter_In. auto.
    + destruct sel; [congruence | reflexivity].
Qed.

(** X3. The list depends on the preset table as a set of entries: two
    tables with the same entries, in any order and with any repetition,
    give the same list. *)
Theorem preset_order_is_irrelevant :
  forall toLowerCase CHANNELS CHANNELS' options,
    (forall entry, In entry CHANNELS <-> In entry CHANNELS') ->
    filteredChannels toLowerCase CHANNELS options
    = filteredChannels toLowerCase CHANNELS' options.
Proof.
  intros toLowerCase CHANNELS CHANNELS' options H. unfold filteredChannels.
  destruct (presetSuffix options) as [[|c suffix]|]; try reflexivity.
  apply filter_ext. intros name. apply isUncovered_same_members.
  intros sel.
  assert (P : In sel (presetSelectors toLowerCase CHANNELS (c :: suffix))
              <-> In sel (presetSelectors toLowerCase CHANNELS' (c :: suffix))).
  { rewrite !presetSelectors_members.
    split; intros [Hne [entry [Hin R]]]; (split; [exact Hne|]);
      exists entry; (split; [now apply H | exact R]). }
  unfold knownSelectors. destruct (additionalKnownNames options) as [names|];
    [|exact P].
  rewrite !in_app_iff. tauto.
Qed.

Lemma preset_order_is_irrelevant_witness :
  filteredChannels asciiToLowerCase (rev espnChannels ++ espnChannels) espnOptions
  = filteredChannels asciiToLowerCase espnChannels espnOptions.
Proof.
  apply preset_order_is_irrelevant. intros entry.
  rewrite in_app_iff, <- in_rev. tauto.
Defined.

(** ** logAvailableChannels: stripping the parenthetical *)

Lemma stripParenthetical_cons :
  forall c r,
    parentheticalAt (c :: r) = false ->
    stripParenthetical (c :: r) = c :: stripParenthetical r.
Proof.
  intros c r P. unfold stripParenthetical at 1. now rewrite P.
Qed.

Lemma stripParenthetical_at :
  forall s, parentheticalAt s = true -> stripParenthetical s = [].
Proof.
  intros s P. destruct s as [|c r]; [discriminate|].
  unfold stripParenthetical. now rewrite P.
Qed.

(** Two parentheticals in a row are one parenthetical. *)
Lemma isParenthetical_app :
  forall a b, isParenthetical a -> isParenthetical b -> isParenthetical (a ++ b).
Proof.
  intros a b [ba [-> Ha]] [bb [-> Hb]].
  exists (ba ++ js ") (" ++ bb). split.
  - change (js " (") with [32; 40]. change (js ")") with [41].
    change (js ") (") with [41; 32; 40].
    repeat rewrite <- app_assoc. reflexivity.
  - apply Forall_app. split; [exact Ha|].
    apply Forall_app. split; [|exact Hb].
    repeat constructor.
Qed.

Lemma parentheticalAt_stripped :
  forall c r,
    parentheticalAt (c :: stripParenthetical r) = true ->
    parentheticalAt (c :: r) = true.
Proof.
  intros c r P.
  destruct (stripParenthetical_spec r) as [tail [Hr [->|Ht]]].
  - rewrite app_nil_r in Hr. now rewrite Hr.
  - apply parentheticalAt_iff. apply parentheticalAt_iff in P.
    rewrite Hr. change (c :: stripParenthetical r ++ tail)
      with ((c :: stripParenthetical r) ++ tail).
    now apply isParenthetical_app.
Qed.

(** X4. Stripping is idempotent: what is left after the leftmost trailing
    parenthetical is removed ends in no parenthetical.  So the exact tier
    only ever matches a selector that has no trailing parenthetical itself;
    a selector that has one can cover a name through the digit tier only. *)
Theorem stripParenthetical_idempotent :
  (forall s,
     stripParenthetical (stripParenthetical s) = stripParenthetical s)
  /\ (forall lower sel,
        coveredBy lower (stripParenthetical lower) sel = true ->
        stripParenthetical sel <> sel ->
        exists digit rest,
          48 <= digit <= 57 /\ lower = sel ++ 32 :: digit :: rest).
Proof.
  assert (I : forall s,
            stripParenthetical (stripParenthetical s) = stripParenthetical s).
  { induction s as [|c r IH]; [reflexivity|].
    destruct (parentheticalAt (c :: r)) eqn:P.
    - now rewrite (stripParenthetical_at _ P).
    - rewrite (stripParenthetical_cons _ _ P).
      destruct (parentheticalAt (c :: stripParenthetical r)) eqn:Q.
      + apply parentheticalAt_stripped in Q. congruence.
      + rewrite (stripParenthetical_cons _ _ Q). now rewrite IH. }
  split; [exact I|].
  intros lower sel C Hs. apply coveredBy_iff in C.
  destruct C as [E|D]; [|exact D].
  exfalso. apply Hs. rewrite <- E. apply I.
Qed.

(** ** normalizeChannelName: when two names compare equal *)

Lemma words_blank :
  forall s, isBlank s = true -> words s = [].
Proof.
  unfold isBlank. induction s as [|c r IH]; intros H; [reflexivity|].
  cbn [forallb] in H. apply andb_true_iff in H. destruct H as [Hc Hr].
  cbn [words]. rewrite Hc. now apply IH.
Qed.

Lemma words_nil_blank :
  forall s, words s = [] -> isBlank s = true.
Proof.
  unfold isBlank. induction s as [|c r IH]; intros H; [reflexivity|].
  cbn [words] in H. cbn [forallb].
  destruct (isWhiteSpace c); [now apply IH|].
  destruct r as [|c' r']; [discriminate|].
  destruct (isWhiteSpace c'); [discriminate|].
  destruct (words (c' :: r')); discriminate.
Qed.

Lemma words_pad_left :
  forall pad s, isBlank pad = true -> words (pad ++ s) = words s.
Proof.
  unfold isBlank. induction pad as [|c r IH]; intros s H; [reflexivity|].
  cbn [forallb] in H. apply andb_true_iff in H. destruct H as [Hc Hr].
  cbn [app words]. rewrite Hc. now apply IH.
Qed.

Lemma words_pad_right :
  forall s pad, isBlank pad = true -> words (s ++ pad) = words s.
Proof.
  induction s as [|c r IH]; intros pad H.
  - now apply words_blank.
  - cbn [app words]. destruct (isWhiteSpace c); [now apply IH|].
    destruct r as [|c' r'].
    + cbn [app]. destruct pad as [|p pad']; [reflexivity|].
      pose proof (words_blank _ H) as B.
      unfold isBlank in H. cbn [forallb] in H.
      apply andb_true_iff in H. destruct H as [Hp _].
      rewrite Hp. now rewrite B.
    + cbn [app]. change (c' :: r' ++ pad) with ((c' :: r') ++ pad).
      now rewrite (IH pad H).
Qed.

Section NormalizedEquality.

Variable toLowerCase : jsstring -> jsstring.

Hypothesis toLowerCase_ascii :
  forall s, Forall isAscii s -> toLowerCase s = map asciiLower s.
Hypothesis toLowerCase_space :
  forall a b, toLowerCase (a ++ 32 :: b) = toLowerCase a ++ 32 :: toLowerCase b.
Hypothesis toLowerCase_word :
  forall w, isWord w -> isWord (toLowerCase w).

(** X5. Two names have the same normal form exactly when they have the same
    words once lowercased; white space around a name does not matter, and
    the normal form is empty exactly for a name that is empty or all white
    space. *)
Theorem normalizeChannelName_equates_words :
  (forall s1 s2,
     normalizeChannelName toLowerCase s1 = normalizeChannelName toLowerCase s2
     <-> map toLowerCase (words s1) = map toLowerCase (words s2))
  /\ (forall before s after,
        isBlank before = true ->
        isBlank after = true ->
        normalizeChannelName toLowerCase (before ++ s ++ after)
        = normalizeChannelName toLowerCase s)
  /\ (forall s, normalizeChannelName toLowerCase s = [] <-> isBlank s = true).
Proof.
  assert (N : forall s,
            normalizeChannelName toLowerCase s
            = unwords (map toLowerCase (words s))).
  { intros s.
    exact (@normalizeChannelName_words toLowerCase toLowerCase_ascii
             toLowerCase_space s). }
  assert (W : forall s, Forall isWord (map toLowerCase (words s))).
  { intros s. apply Forall_map. eapply Forall_impl; [|apply words_are_words].
    exact toLowerCase_word. }
  split; [|split].
  - intros s1 s2. rewrite !N. split; [|now intros ->].
    intros H. apply (f_equal words) in H.
    now rewrite !words_unwords in H by apply W.
  - intros before s after Hb Ha. rewrite !N.
    now rewrite words_pad_left, words_pad_right.
  - intros s. rewrite N. split.
    + intros H. apply words_nil_blank.
      apply (f_equal words) in H. rewrite words_unwords in H by apply W.
      cbn in H. now destruct (words s).
    + intros H. now rewrite (words_blank _ H).
Qed.

End NormalizedEquality.

Lemma normalizeChannelName_equates_words_witness :
  normalizeChannelName asciiToLowerCase ([9] ++ js "WLS  Chicago" ++ [160])
  = normalizeChannelName asciiToLowerCase (js "wls chicago")
  /\ normalizeChannelName asciiToLowerCase [32; 9; 160] = [].
Proof.
  pose proof (@normalizeChannelName_equates_words asciiToLowerCase
                (fun s _ => eq_refl) asciiToLowerCase_space
                asciiToLowerCase_word) as [H1 [_ H3]].
  split.
  - apply H1. reflexivity.
  - apply H3. reflexivity.
Defined.

(** ** selectChannel: what the coordinator adds to a strategy *)

Lemma bind_ret :
  forall World A (m : Async World A) rt, bind m (fun a => ret a) rt = m rt.
Proof.
  intros World A m rt. unfold bind, ret. now destruct (m rt) as [[a|e] rt'].
Qed.

(** X6. When the registry lookup finds a value, the call is the call of
    that value on the narrowed profile, in the state the image poll leaves,
    with the completion handed back as it is, result or exception; the
    coordinator logs nothing, retries nothing, and for a name of the skip
    list the strategy starts on an untouched page. *)
Theorem selectChannel_returns_the_call :
  forall World (browser : Browser World) (env : Environment World)
         (profile : ResolvedSiteProfile) (slug : jsstring) (rt : Runtime World)
         (v : JSValue World),
    streq (strategy (channelSelection profile)) (js "none") = false ->
    channelSelector profile = Some slug ->
    strategies_get browser env (strategy (channelSelection profile)) = Some v ->
    let before := snd (pollSlugImage browser env (narrow profile slug) rt) in
    selectChannel browser env profile rt = call v (narrow profile slug) before
    /\ (forall fn,
          v = FunctionValue fn ->
          selectChannel browser env profile rt = fn (narrow profile slug) before)
    /\ logs before = logs rt
    /\ trace before = trace rt ++ pollOps env (narrow profile slug)
    /\ (skipsImagePolling (strategy (channelSelection profile)) = true ->
        before = rt).
Proof.
  intros World browser env profile slug rt v Hn Hs Hv before.
  pose proof (pollSlugImage_effect browser env (narrow profile slug) rt)
    as [_ [Hl Ht]].
  assert (E : selectChannel browser env profile rt
              = call v (narrow profile slug) before).
  { rewrite (selectChannel_dispatches browser env profile rt Hn Hs).
    fold (narrow profile slug). fold before.
    unfold dispatch. cbn [narrow selection]. rewrite Hv. apply bind_ret. }
  split; [exact E | split; [|split; [|split]]].
  - intros fn ->. exact E.
  - exact Hl.
  - exact Ht.
  - intros K. subst before. unfold pollSlugImage.
    cbn [narrow selection]. now rewrite K.
Qed.

Lemma selectChannel_returns_the_call_witness :
  selectChannel (mockBrowser emptyPage) mockEnv
    (profileOf (js "thumbnailRow") (Some (js "espn")) None) (startOf freshWorld)
  = (Normal succeeded,
     {| world := tick freshWorld;
        logs := [];
        trace := [OpWaitForFunction (js "espn") 3000] |}).
Proof.
  exact (proj1
    (@selectChannel_returns_the_call MockWorld (mockBrowser emptyPage) mockEnv
       (profileOf (js "thumbnailRow") (Some (js "espn")) None) (js "espn")
       (startOf freshWorld) mockStrategy eq_refl eq_refl eq_refl)).
Defined.

(** ** tileClick: Locate, soundness *)

Section LocateSoundness.

Context {World : Type}.
Variable browser : Browser World.

Lemma tileOfImage_no_match :
  forall slug img w,
    matchesSlug browser slug img w = false ->
    tileOfImage browser slug img w = (None, w).
Proof.
  intros slug img w H. rewrite tileOfImage_tiers.
  unfold tileOfImageTiers. now rewrite H.
Qed.

Lemma findTileIn_no_match :
  forall slug images w,
    (forall img, In img images -> matchesSlug browser slug img w = false) ->
    findTileIn browser slug images w = (None, w).
Proof.
  induction images as [|img rest IH]; intros w H; [reflexivity|].
  cbn [findTileIn]. rewrite tileOfImage_no_match by (apply H; now left).
  apply IH. intros i Hi. apply H. now right.
Qed.

Lemma visits_member :
  forall stop chain w a w1,
    In (a, w1) (visits browser stop chain w) ->
    In a chain
    /\ (isSemanticClickable a = true ->
        exists w0, w1 = scrollIntoView browser (node a) w0).
Proof.
  induction chain as [|b parents IH]; intros w a w1 H; [destruct H|].
  cbn [visits] in H. destruct (stop b w); [destruct H|].
  destruct H as [H|H].
  - injection H as <- <-. split; [now left|].
    intros S. rewrite S. now exists w.
  - apply IH in H. destruct H as [H1 H2]. split; [now right | exact H2].
Qed.

Lemma tiers_sound :
  forall stop chain w t w',
    tiers browser (visits browser stop chain w) w = (Some t, w') ->
    exists a w0,
      In a chain
      /\ (isSemanticClickable a = true
          \/ exists wv, isPointerCandidate browser a wv = true)
      /\ w' = scrollIntoView browser (node a) w0
      /\ t = centerOf (getBoundingClientRect browser (node a) w')
      /\ hasArea (getBoundingClientRect browser (node a) w') = true.
Proof.
  intros stop chain w t w' H. unfold tiers in H.
  destruct (find (semanticHit browser) (visits browser stop chain w))
    as [[a w1]|] eqn:F.
  - injection H as <- <-. apply find_some in F. destruct F as [Hin Hit].
    unfold semanticHit in Hit. cbn [fst snd] in Hit.
    apply andb_true_iff in Hit. destruct Hit as [S A].
    apply visits_member in Hin. destruct Hin as [Hc Hs].
    destruct (Hs S) as [w0 ->]. exists a, w0. auto.
  - destruct (find (pointerHit browser) (visits browser stop chain w))
      as [[a wv]|] eqn:P; [|discriminate].
    apply find_some in P. destruct P as [Hin Hit].
    unfold pointerHit in Hit. cbn [fst snd] in Hit.
    apply visits_member in Hin. destruct Hin as [Hc _].
    destruct (hasArea (getBoundingClientRect browser (node a)
                (scrollIntoView browser (node a)
                   (lastWorld (visits browser stop chain w) w)))) eqn:A;
      [|discriminate].
    injection H as <- <-.
    exists a, (lastWorld (visits browser stop chain w) w).
    repeat split; auto. right. now exists wv.
Qed.

End LocateSoundness.

(** X7. When no image has both the slug in its source and a box of positive
    area, Locate returns nothing and leaves the page as it was (nothing is
    scrolled); the strategy then fails with
    ["Channel tile not found in page images."] after that single evaluation,
    without a click. *)
Theorem findTile_without_match :
  forall World (browser : Browser World) (config : Config)
         (profile : ChannelSelectionProfile) (rt : Runtime World),
    (forall img,
       In img (querySelectorAll_img browser (world rt)) ->
       matchesSlug browser (selector profile) img (world rt) = false) ->
    findTile browser (selector profile) (world rt) = (None, world rt)
    /\ tileClickStrategyFn browser config profile rt
       = (Normal (failed (js "Channel tile not found in page images.")),
          {| world := world rt;
             logs := logs rt;
             trace := trace rt ++ [OpEvaluate (FindTile (selector profile))] |}).
Proof.
  intros World browser config profile rt H.
  assert (F : findTile browser (selector profile) (world rt) = (None, world rt)).
  { unfold findTile. now apply findTileIn_no_match. }
  split; [exact F|].
  unfold tileClickStrategyFn. run_async. now rewrite F.
Qed.

Lemma findTile_without_match_witness :
  fst (tileClickStrategyFn (mockBrowser stuckPage) mockConfig
         {| selection := {| strategy := js "tileClick"; playSelector := None |};
            selector := js "cnn" |}
         (startOf freshWorld))
  = Normal (failed (js "Channel tile not found in page images.")).
Proof.
  refine (f_equal fst (proj2
    (@findTile_without_match MockWorld (mockBrowser stuckPage) mockConfig
       {| selection := {| strategy := js "tileClick"; playSelector := None |};
          selector := js "cnn" |}
       (startOf freshWorld) _))).
  intros img [<-|[]]. reflexivity.
Defined.

Lemma findTile_target :
  forall World (browser : Browser World) (slug : jsstring) (w w' : World)
         (t : ClickTarget),
    findTile browser slug w = (Some t, w') ->
    exists img a w0,
      In img (querySelectorAll_img browser w)
      /\ includes (src img) slug = true
      /\ In a (parentChain img)
      /\ (isSemanticClickable a = true
          \/ exists wv, isPointerCandidate browser a wv = true)
      /\ w' = scrollIntoView browser (node a) w0
      /\ t = centerOf (getBoundingClientRect browser (node a) w')
      /\ hasArea (getBoundingClientRect browser (node a) w') = true.
Proof.
  intros World browser slug w w' t H. unfold findTile in H.
  apply findTileIn_some in H.
  destruct H as [before [img [after [w0 [Hi [_ Ht]]]]]].
  rewrite tileOfImage_tiers in Ht. unfold tileOfImageTiers in Ht.
  destruct (matchesSlug browser slug img w0) eqn:M; [|discriminate].
  unfold matchesSlug in M. apply andb_true_iff in M. destruct M as [M _].
  apply tiers_sound in Ht. destruct Ht as [a [w1 [Hc R]]].
  exists img, a, w1. split; [|split; [exact M | split; [exact Hc | exact R]]].
  rewrite Hi. apply in_or_app. right. now left.
Qed.

(** X8. A target returned by Locate is the center of the box of an ancestor
    of an image whose source contains the slug; that ancestor is a semantic
    clickable or was seen as a pointer candidate; its box has positive area
    and is read in the returned world, right after the ancestor was
    scrolled into view. *)
Theorem findTile_sound :
  forall World (browser : Browser World) (slug : jsstring) (w w' : World)
         (t : ClickTarget),
    findTile browser slug w = (Some t, w') ->
    exists img a w0,
      In img (querySelectorAll_img browser w)
      /\ includes (src img) slug = true
      /\ In a (parentChain img)
      /\ (isSemanticClickable a = true
          \/ exists wv, isPointerCandidate browser a wv = true)
      /\ w' = scrollIntoView browser (node a) w0
      /\ t = centerOf (getBoundingClientRect browser (node a) w')
      /\ hasArea (getBoundingClientRect browser (node a) w') = true.
Proof.
  intros World browser slug w w' t H. now apply findTile_target.
Qed.

Lemma findTile_sound_witness :
  exists img a w0,
    In img (mock_images stuckPage)
    /\ includes (src img) (js "espn") = true
    /\ In a (parentChain img)
    /\ (isSemanticClickable a = true
        \/ exists wv, isPointerCandidate (mockBrowser stuckPage) a wv = true)
    /\ freshWorld = scrollIntoView (mockBrowser stuckPage) (node a) w0
    /\ centerOf (square 100)
       = centerOf (getBoundingClientRect (mockBrowser stuckPage) (node a) freshWorld)
    /\ hasArea (getBoundingClientRect (mockBrowser stuckPage) (node a) freshWorld)
       = true.
Proof.
  exact (@findTile_sound MockWorld (mockBrowser stuckPage) (js "espn")
           freshWorld freshWorld (centerOf (square 100)) eq_refl).
Defined.

(** ** tileClick: every run *)

Lemma mouseClicks_app :
  forall a b, mouseClicks (a ++ b) = (mouseClicks a + mouseClicks b)%nat.
Proof. intros a b. unfold mouseClicks. now rewrite filter_app, length_app. Qed.

Lemma mouseClicks_attempts :
  forall sel ts,
    mouseClicks (List.concat (map (attemptOps sel) ts)) = List.length ts.
Proof.
  intros sel ts. induction ts as [|t ts IH]; [reflexivity|].
  cbn [map List.concat]. rewrite mouseClicks_app, IH. reflexivity.
Qed.

Lemma settledFrom_attempts :
  forall sel ts rest b,
    settledFrom b (List.concat (map (attemptOps sel) ts) ++ rest)
    = settledFrom (match ts with [] => b | _ => false end) rest.
Proof.
  intros sel ts. induction ts as [|t ts IH]; intros rest b; [reflexivity|].
  cbn [map List.concat]. rewrite <- app_assoc.
  unfold attemptOps at 1. cbn [app settledFrom N.eqb Pos.eqb andb].
  rewrite IH. now destruct ts.
Qed.

Lemma TileClickTrace_clicks :
  forall slug timeout ops,
    TileClickTrace slug timeout ops ->
    (mouseClicks ops <= 1 + MAX_PLAY_CLICK_ATTEMPTS)%nat
    /\ settledFrom false ops = true.
Proof.
  intros slug timeout ops H. destruct H as [|tile|sel tile ts lastRead L R].
  - split; [cbn; lia | reflexivity].
  - split; [cbn; lia | reflexivity].
  - split.
    + rewrite !mouseClicks_app, mouseClicks_attempts.
      change (mouseClicks (locateOps slug sel tile timeout)) with 1%nat.
      destruct R as [-> | ->]; cbn; lia.
    + unfold locateOps. cbn [app settledFrom N.eqb Pos.eqb andb].
      rewrite settledFrom_attempts.
      destruct R as [-> | ->]; now destruct ts.
Qed.

Lemma forallb_app_true :
  forall (A : Type) (f : A -> bool) (a b : list A),
    forallb f a = true -> forallb f b = true -> forallb f (a ++ b) = true.
Proof.
  intros A f a b Ha Hb. rewrite forallb_app. now rewrite Ha, Hb.
Qed.

Lemma retryLog_small :
  forall attempt,
    forallb isInfoOrDebug (retryLog attempt) = true
    /\ (List.length (retryLog attempt) <= 1)%nat.
Proof.
  intros attempt. unfold retryLog.
  destruct (attempt <? MAX_PLAY_CLICK_ATTEMPTS - 1)%nat; cbn; split;
    try reflexivity; lia.
Qed.

Section EveryRun.

Context {World : Type}.
Variable browser : Browser World.

(** How the retry loop can run, with [r] iterations left. *)
Lemma clickPlayButton_run :
  forall sel r rt,
    exists res attempts lastRead extra,
      fst (clickPlayButton browser sel r rt) = Normal res
      /\ In res [ succeeded;
                  failed (js "Play button found but has no dimensions.");
                  failed exhaustedReason ]
      /\ trace (snd (clickPlayButton browser sel r rt))
         = trace rt ++ List.concat (map (attemptOps sel) attempts) ++ lastRead
      /\ (List.length attempts <= r)%nat
      /\ (lastRead = [] \/ lastRead = [OpEvaluate (ReadPlayTarget sel)])
      /\ logs (snd (clickPlayButton browser sel r rt)) = logs rt ++ extra
      /\ forallb isInfoOrDebug extra = true
      /\ (List.length extra <= r)%nat.
Proof.
  intros sel. induction r as [|r IH]; intros rt.
  - exists (failed exhaustedReason), [], [], []. cbn.
    rewrite !app_nil_r. repeat split; auto.
  - destruct (readPlayTarget browser sel (world rt)) as [[t|] w1] eqn:H.
    + destruct (waitForSelector browser sel true PLAY_CLICK_VERIFY_TIMEOUT
                  (clickedAt browser t w1)) as [[|] w3] eqn:V.
      * rewrite (attempt_dismissed browser sel r rt H V).
        exists succeeded, [t], [], []. cbn [fst snd trace logs map List.concat].
        rewrite !app_nil_r. repeat split; auto; cbn; try lia. now left.
      * rewrite (attempt_missed browser sel r rt H V).
        match goal with |- context [clickPlayButton browser sel r ?s] =>
          destruct (IH s) as [res [ts [lastRead [extra
            [E [O [T [L [R [G [I K]]]]]]]]]]] end.
        cbn [trace logs] in T, G.
        destruct (retryLog_small (MAX_PLAY_CLICK_ATTEMPTS - S r)) as [RI RL].
        exists res, (t :: ts), lastRead,
          (retryLog (MAX_PLAY_CLICK_ATTEMPTS - S r) ++ extra).
        repeat split; auto.
        -- rewrite T. cbn [map List.concat]. now rewrite <- !app_assoc.
        -- cbn [List.length]. lia.
        -- rewrite G. now rewrite <- app_assoc.
        -- now apply forallb_app_true.
        -- rewrite length_app. lia.
    + rewrite (attempt_vanished browser sel r rt H).
      destruct (0 <? MAX_PLAY_CLICK_ATTEMPTS - S r)%nat.
      * exists succeeded, [], [OpEvaluate (ReadPlayTarget sel)],
          [LogDebug (js "tuning:tileClick") disappearedFormat
             [ArgNumber (MAX_PLAY_CLICK_ATTEMPTS - S r + 1)]].
        cbn [fst snd trace logs map List.concat app].
        repeat split; auto; cbn; try lia. now left.
      * exists (failed (js "Play button found but has no dimensions.")),
          [], [OpEvaluate (ReadPlayTarget sel)], [].
        cbn [fst snd trace logs map List.concat app]. rewrite app_nil_r.
        repeat split; auto; cbn; try lia. right. now left.
Qed.

End EveryRun.

Section EveryTileClickRun.

Context {World : Type}.
Variable browser : Browser World.
Variable config : Config.

Lemma tileClick_run :
  forall profile rt,
    exists res ops extra,
      fst (tileClickStrategyFn browser config profile rt) = Normal res
      /\ In res tileClickOutcomes
      /\ trace (snd (tileClickStrategyFn browser config profile rt))
         = trace rt ++ ops
      /\ TileClickTrace (selector profile) (videoTimeout config) ops
      /\ logs (snd (tileClickStrategyFn browser config profile rt))
         = logs rt ++ extra
      /\ forallb isInfoOrDebug extra = true
      /\ (List.length extra <= MAX_PLAY_CLICK_ATTEMPTS)%nat.
Proof.
  intros profile rt. unfold tileClickOutcomes.
  destruct (findTile browser (selector profile) (world rt)) as [[tile|] w0] eqn:Ht.
  - assert (Only : playSelector (selection profile) = None
                   \/ playSelector (selection profile) = Some [] ->
                   exists res ops extra,
                     fst (tileClickStrategyFn browser config profile rt) = Normal res
                     /\ In res tileClickOutcomes
                     /\ trace (snd (tileClickStrategyFn browser config profile rt))
                        = trace rt ++ ops
                     /\ TileClickTrace (selector profile) (videoTimeout config) ops
                     /\ logs (snd (tileClickStrategyFn browser config profile rt))
                        = logs rt ++ extra
                     /\ forallb isInfoOrDebug extra = true
                     /\ (List.length extra <= MAX_PLAY_CLICK_ATTEMPTS)%nat).
    { intros Hp.
      exists succeeded,
        [ OpEvaluate (FindTile (selector profile)); OpDelay 200;
          OpMouseClick (target_x tile) (target_y tile) ], [].
      unfold tileClickStrategyFn.
      destruct Hp as [Hp|Hp]; rewrite Hp; run_async; rewrite Ht;
        flatten_trace; rewrite app_nil_r;
        (repeat split; [now left | now apply TraceTileOnly | cbn; lia]). }
    destruct (playSelector (selection profile)) as [[|c s]|] eqn:Hp;
      [apply Only; now right | | apply Only; now left].
    clear Only.
    destruct (waitForSelector browser (c :: s) false (videoTimeout config)
                (clickedAt browser tile w0)) as [[|] w1] eqn:Ha.
    + rewrite (@tileClick_reaches_confirm World browser config profile (c :: s)
                 rt tile w0 w1 Hp ltac:(discriminate) Ht Ha).
      destruct (clickPlayButton_run browser (c :: s) MAX_PLAY_CLICK_ATTEMPTS
                  (confirmStart config rt (selector profile) (c :: s) tile w1))
        as [res [ts [lastRead [extra [E [O [T [L [R [G [I K]]]]]]]]]]].
      cbn [confirmStart trace logs] in T, G.
      exists res,
        (locateOps (selector profile) (c :: s) tile (videoTimeout config)
         ++ List.concat (map (attemptOps (c :: s)) ts) ++ lastRead), extra.
      repeat split; auto.
      * destruct O as [<-|[<-|[<-|[]]]]; cbn; auto 6.
      * rewrite T. now rewrite <- app_assoc.
      * now apply TraceConfirm.
    + unfold clickedAt in Ha.
      exists (failed (js "Play button did not appear after clicking channel tile.")),
        (locateOps (selector profile) (c :: s) tile (videoTimeout config)), [].
      unfold tileClickStrategyFn. rewrite Hp. run_async. rewrite Ht.
      cbn [world]. rewrite Ha. flatten_trace. rewrite app_nil_r.
      repeat split; [cbn; auto | | cbn; lia].
      replace (locateOps (selector profile) (c :: s) tile (videoTimeout config))
        with (locateOps (selector profile) (c :: s) tile (videoTimeout config)
              ++ List.concat (map (attemptOps (c :: s)) []) ++ [])
        by (cbn [map List.concat app]; apply app_nil_r).
      apply TraceConfirm; auto. cbn. lia.
  - exists (failed (js "Channel tile not found in page images.")),
      [OpEvaluate (FindTile (selector profile))], [].
    unfold tileClickStrategyFn. run_async. rewrite Ht.
    flatten_trace. rewrite app_nil_r.
    repeat split; [cbn; auto | apply TraceNotFound | cbn; lia].
Qed.

End EveryTileClickRun.

(** X9. Where the clicks, the delays and the in-page evaluations complete,
    as this model takes them to, and whatever the page answers, the page
    operations of a run of the strategy follow one pattern: the tile
    evaluation alone; or that, the settle delay and the click on the tile;
    or those, the wait for the play button, at most 3 complete attempts
    (read, settle, click, verify) and possibly one last read.  Every click
    comes right after the 200 ms settle delay, and there are at most 4
    clicks. *)
Theorem tileClick_trace_shape :
  forall World (browser : Browser World) (config : Config)
         (profile : ChannelSelectionProfile) (rt : Runtime World),
    exists ops,
      trace (snd (tileClickStrategyFn browser config profile rt))
      = trace rt ++ ops
      /\ TileClickTrace (selector profile) (videoTimeout config) ops
      /\ (mouseClicks ops <= 4)%nat
      /\ settledFrom false ops = true.
Proof.
  intros World browser config profile rt.
  destruct (tileClick_run browser config profile rt)
    as [res [ops [extra [_ [_ [T [S _]]]]]]].
  exists ops. destruct (TileClickTrace_clicks S) as [C D].
  repeat split; auto.
Qed.

(** X10. No timeout of the two waits escapes a run of the strategy.  Where
    the clicks, the delays and the in-page evaluations complete, as this
    model takes them to, a run ends in success or in one of four failures,
    writes at most 3 log entries, and none of them is a warning. *)
Theorem tileClick_outcomes :
  forall World (browser : Browser World) (config : Config)
         (profile : ChannelSelectionProfile) (rt : Runtime World),
    exists res extra,
      fst (tileClickStrategyFn browser config profile rt) = Normal res
      /\ In res tileClickOutcomes
      /\ logs (snd (tileClickStrategyFn browser config profile rt))
         = logs rt ++ extra
      /\ forallb isInfoOrDebug extra = true
      /\ (List.length extra <= 3)%nat.
Proof.
  intros World browser config profile rt.
  destruct (tileClick_run browser config profile rt)
    as [res [ops [extra [E [O [_ [_ [G [I K]]]]]]]]].
  exists res, extra. auto.
Qed.

(** ** tileClick: reading the outcome back *)

Lemma exhausted_is_no_other_outcome :
  succeeded <> failed exhaustedReason
  /\ failed (js "Play button found but has no dimensions.")
     <> failed exhaustedReason
  /\ failed (js "Channel tile not found in page images.")
     <> failed exhaustedReason
  /\ failed (js "Play button did not appear after clicking channel tile.")
     <> failed exhaustedReason.
Proof.
  repeat split; intros H; apply (f_equal reason) in H; cbv in H; discriminate H.
Qed.

Section Exhausted.

Context {World : Type}.
Variable browser : Browser World.

Lemma clickPlayButton_exhausted :
  forall sel r rt,
    fst (clickPlayButton browser sel r rt) = Normal (failed exhaustedReason) ->
    verifications (trace (snd (clickPlayButton browser sel r rt)))
    = (verifications (trace rt) + r)%nat
    /\ playReads (trace (snd (clickPlayButton browser sel r rt)))
       = (playReads (trace rt) + r)%nat
    /\ logs (snd (clickPlayButton browser sel r rt)) = logs rt ++ retryLogs r.
Proof.
  destruct exhausted_is_no_other_outcome as [D1 [D2 _]].
  intros sel. induction r as [|r IH]; intros rt H.
  - cbn. rewrite app_nil_r. repeat split; lia.
  - destruct (readPlayTarget browser sel (world rt)) as [[t|] w1] eqn:R.
    + destruct (waitForSelector browser sel true PLAY_CLICK_VERIFY_TIMEOUT
                  (clickedAt browser t w1)) as [[|] w3] eqn:V.
      * rewrite (attempt_dismissed browser sel r rt R V) in H.
        cbn [fst] in H. congruence.
      * rewrite (attempt_missed browser sel r rt R V) in H |- *.
        apply IH in H. destruct H as [H1 [H2 H3]].
        cbn [trace logs] in H1, H2, H3.
        rewrite verifications_app in H1. rewrite playReads_app in H2.
        destruct (attemptOps_counts sel t) as [C1 C2].
        rewrite C2 in H1. rewrite C1 in H2.
        clear IH. repeat split; try lia.
        rewrite H3. cbn [retryLogs]. now rewrite <- app_assoc.
    + rewrite (attempt_vanished browser sel r rt R) in H.
      destruct (0 <? MAX_PLAY_CLICK_ATTEMPTS - S r)%nat; cbn [fst] in H; congruence.
Qed.

End Exhausted.

(** X11. The exhaustion failure is reported only after 3 complete attempts:
    a run that ends with that reason has read the play button 3 times,
    verified 3 clicks, and logged the two retry messages, 1 of 3 and
    2 of 3. *)
Theorem exhaustion_means_three_attempts :
  forall World (browser : Browser World) (config : Config)
         (profile : ChannelSelectionProfile) (rt : Runtime World),
    fst (tileClickStrategyFn browser config profile rt)
    = Normal (failed
                (js "Play button click did not dismiss the modal after 3 attempts.")) ->
    let final := snd (tileClickStrategyFn browser config profile rt) in
    verifications (trace final) = (verifications (trace rt) + 3)%nat
    /\ playReads (trace final) = (playReads (trace rt) + 3)%nat
    /\ logs final
       = logs rt
         ++ [ LogInfo retryFormat [ArgNumber 1; ArgNumber 3];
              LogInfo retryFormat [ArgNumber 2; ArgNumber 3] ].
Proof.
  intros World browser config profile rt H final. subst final.
  change (js "Play button click did not dismiss the modal after 3 attempts.")
    with exhaustedReason in H.
  destruct exhausted_is_no_other_outcome as [D1 [_ [D3 D4]]].
  destruct (findTile browser (selector profile) (world rt)) as [[tile|] w0] eqn:Ht.
  - destruct (playSelector (selection profile)) as [[|c s]|] eqn:Hp.
    + exfalso. revert H. unfold tileClickStrategyFn. rewrite Hp. run_async.
      rewrite Ht. cbn [fst]. congruence.
    + destruct (waitForSelector browser (c :: s) false (videoTimeout config)
                  (clickedAt browser tile w0)) as [[|] w1] eqn:Ha.
      * rewrite (@tileClick_reaches_confirm World browser config profile
                   (c :: s) rt tile w0 w1 Hp ltac:(discriminate) Ht Ha)
          in H |- *.
        apply clickPlayButton_exhausted in H. destruct H as [H1 [H2 H3]].
        cbn [confirmStart trace logs] in H1, H2, H3.
        rewrite verifications_app in H1. rewrite playReads_app in H2.
        change (verifications (locateOps (selector profile) (c :: s) tile
                                 (videoTimeout config))) with 0%nat in H1.
        change (playReads (locateOps (selector profile) (c :: s) tile
                             (videoTimeout config))) with 0%nat in H2.
        change MAX_PLAY_CLICK_ATTEMPTS with 3%nat in *.
        split; [lia | split; [lia | exact H3]].
      * exfalso. revert H. unfold clickedAt in Ha.
        unfold tileClickStrategyFn. rewrite Hp. run_async. rewrite Ht.
        cbn [world]. rewrite Ha. cbn [fst]. congruence.
    + exfalso. revert H. unfold tileClickStrategyFn. rewrite Hp. run_async.
      rewrite Ht. cbn [fst]. congruence.
  - exfalso. revert H. unfold tileClickStrategyFn. run_async. rewrite Ht.
    cbn [fst]. congruence.
Qed.

Lemma exhaustion_means_three_attempts_witness :
  playReads
    (trace (snd (tileClickStrategyFn (mockBrowser stuckPage) mockConfig
                   playProfile (startOf freshWorld))))
  = 3%nat.
Proof.
  exact (proj1 (proj2
    (@exhaustion_means_three_attempts MockWorld (mockBrowser stuckPage)
       mockConfig playProfile (startOf freshWorld) eq_refl))).
Defined.

(** X12. When the tile is found and clicked but the play button does not
    appear within the configured timeout, the run fails with
    ["Play button did not appear after clicking channel tile."]; the tile
    click is its only click, the button is never read, nothing is logged. *)
Theorem play_button_never_appears :
  forall World (browser : Browser World) (config : Config)
         (profile : ChannelSelectionProfile) (sel : jsstring)
         (rt : Runtime World) (tile : ClickTarget) (w0 w1 : World),
    playSelector (selection profile) = Some sel ->
    sel <> [] ->
    findTile browser (selector profile) (world rt) = (Some tile, w0) ->
    waitForSelector browser sel false (videoTimeout config)
      (clickedAt browser tile w0) = (false, w1) ->
    tileClickStrategyFn browser config profile rt
    = (Normal (failed (js "Play button did not appear after clicking channel tile.")),
       {| world := w1;
          logs := logs rt;
          trace := trace rt
                   ++ locateOps (selector profile) sel tile (videoTimeout config) |}).
Proof.
  intros World browser config profile sel rt tile w0 w1 Hp Hs Ht Ha.
  unfold clickedAt in Ha. unfold tileClickStrategyFn. rewrite Hp.
  destruct sel as [|c s]; [congruence|].
  run_async. rewrite Ht. cbn [world]. rewrite Ha.
  unfold locateOps. flatten_trace. reflexivity.
Qed.

Lemma play_button_never_appears_witness :
  fst (tileClickStrategyFn (mockBrowser twoTilePage) mockConfig playProfile
         (startOf freshWorld))
  = Normal (failed (js "Play button did not appear after clicking channel tile.")).
Proof.
  exact (f_equal fst
    (@play_button_never_appears MockWorld (mockBrowser twoTilePage) mockConfig
       playProfile (js "button.watch-live") (startOf freshWorld)
       (centerOf (square 100)) freshWorld {| clicks := 1; ticks := 1 |}
       eq_refl
       (fun H => eq_ind (js "button.watch-live")
                   (fun l => match l with [] => False | _ => True end)
                   I [] H)
       eq_refl eq_refl)).
Defined.

(** X13. When the tile is found, the play button appears, the first read
    yields coordinates and the button is gone within the verification
    timeout after the click, the run succeeds after that single attempt:
    one read, two clicks in all, no retry message. *)
Theorem first_click_dismisses :
  forall World (browser : Browser World) (config : Config)
         (profile : ChannelSelectionProfile) (sel : jsstring)
         (rt : Runtime World) (tile t : ClickTarget) (w0 w1 w2 w3 : World),
    playSelector (selection profile) = Some sel ->
    sel <> [] ->
    findTile browser (selector profile) (world rt) = (Some tile, w0) ->
    waitForSelector browser sel false (videoTimeout config)
      (clickedAt browser tile w0) = (true, w1) ->
    readPlayTarget browser sel w1 = (Some t, w2) ->
    waitForSelector browser sel true PLAY_CLICK_VERIFY_TIMEOUT
      (clickedAt browser t w2) = (true, w3) ->
    tileClickStrategyFn browser config profile rt
    = (Normal succeeded,
       {| world := w3;
          logs := logs rt;
          trace := trace rt
                   ++ locateOps (selector profile) sel tile (videoTimeout config)
                   ++ attemptOps sel t |}).
Proof.
  intros World browser config profile sel rt tile t w0 w1 w2 w3
         Hp Hs Ht Ha Hr Hv.
  rewrite (tileClick_reaches_confirm browser config profile rt Hp Hs Ht Ha).
  change MAX_PLAY_CLICK_ATTEMPTS with 3%nat.
  rewrite (@attempt_dismissed World browser sel 2
             (confirmStart config rt (selector profile) sel tile w1)
             t w2 w3 Hr Hv).
  cbn [confirmStart logs trace]. now rewrite <- app_assoc.
Qed.

Lemma first_click_dismisses_witness :
  tileClickStrategyFn (mockBrowser dismissPage) mockConfig playProfile
    (startOf freshWorld)
  = (Normal succeeded,
     {| world := {| clicks := 2; ticks := 2 |};
        logs := [];
        trace := locateOps (js "espn") (js "button.watch-live")
                   (centerOf (square 100)) 10000
                 ++ attemptOps (js "button.watch-live") (centerOf (square 100)) |}).
Proof.
  exact (@first_click_dismisses MockWorld (mockBrowser dismissPage) mockConfig
           playProfile (js "button.watch-live") (startOf freshWorld)
           (centerOf (square 100)) (centerOf (square 100))
           freshWorld {| clicks := 1; ticks := 1 |} {| clicks := 1; ticks := 1 |}
           {| clicks := 2; ticks := 2 |}
           eq_refl
           (fun H => eq_ind (js "button.watch-live")
                       (fun l => match l with [] => False | _ => True end)
                       I [] H)
           eq_refl eq_refl eq_refl eq_refl).
Defined.
